(** * Verification of the gamelight session manager, input parsers and
    pairing crypto helpers.

    Shallow embedding of
    - [pkg/session/session.go]   (module [Session])
    - the binary input parsers of package [input]   (module [Input])
    - [pkg/sunshine/pair.go] key derivation, AES-CBC helpers and the
      server pairing secret check   (module [Pair])
    - [Client.Launch] / [Client.Resume] and the stream-start callback
      (module [Launch])
    - the read accessors of [Session]   (module [SessionRead])
    - [pkg/web/server.go] data-channel dispatch, client join and leave,
      and the session messages of a client   (module [Server])
    - the data-channel senders of [web/static/app.js]   (module [Browser])
    - [pairStep4] of [pair.go] and [generateUUID] of the Sunshine client
      (modules [PairSteps] and [Uuid]). *)

From Stdlib Require Import ZArith List Lia Bool.
From stdpp Require Import base gmap strings list pretty.

(* ===================================================================== *)
(** ** pkg/session/session.go *)
(* ===================================================================== *)

Module Session.

(** [type Role string]: only the two constants are ever stored. *)
Inductive Role := RoleSpectator | RolePlayer.

#[global] Instance Role_eq_dec : EqDecision Role.
Proof. solve_decision. Defined.

(** [type PlayerSlot int]; [SlotNone = 0], [Slot1 .. Slot4 = 1 .. 4]. *)
Definition PlayerSlot := nat.
Definition SlotNone : PlayerSlot := 0.
Definition Slot1 : PlayerSlot := 1.
Definition Slot4 : PlayerSlot := 4.

Inductive Error :=
  | ErrNoSlotAvailable | ErrAlreadyPlayer | ErrNotAPlayer
  | ErrNotHost | ErrSessionExists | ErrNoSession.

Record Participant := mkParticipant {
  ID : string;
  Name : string;
  PRole : Role;
  Slot : PlayerSlot;
  IsHost : bool;
  CanKeyboard : bool;
  CanMouse : bool
}.

(** The [Session] fields the operations touch.  [participants] is the
    [map[string]*Participant]; [slots] is the [[5]*Participant] array
    (index 0 unused).  A slot entry points to the same object as the map
    entry of that participant, so it is modelled by the participant's id:
    a mutation through the map is seen through the slot array. *)
Record Session := mkSession {
  participants : gmap string Participant;
  slots : list (option string);
  hostID : string
}.

(** [Manager.CreateSession]: a fresh session has no participants, five
    nil slots and an empty host id. *)
Definition empty_session : Session :=
  mkSession ∅ (replicate 5 None) "".

(** Field updates through the participant pointer. *)
Definition set_role_slot (p : Participant) (r : Role) (k : PlayerSlot) :=
  mkParticipant (ID p) (Name p) r k (IsHost p) (CanKeyboard p) (CanMouse p).
Definition set_keyboard (p : Participant) (b : bool) :=
  mkParticipant (ID p) (Name p) (PRole p) (Slot p) (IsHost p) b (CanMouse p).
Definition set_mouse (p : Participant) (b : bool) :=
  mkParticipant (ID p) (Name p) (PRole p) (Slot p) (IsHost p) (CanKeyboard p) b.
Definition make_host (p : Participant) :=
  mkParticipant (ID p) (Name p) (PRole p) (Slot p) true true true.

(** [s.slots[k] = v] ([k] is always in 0..4 here). *)
Definition set_slot (sl : list (option string)) (k : PlayerSlot)
    (v : option string) : list (option string) := <[k := v]> sl.

(** [Session.Join] *)
Definition Join (s : Session) (id name : string) : Session * Participant :=
  match participants s !! id with
  | Some p => (s, p)
  | None =>
      let isHost := Nat.eqb (size (participants s)) 0 in
      let role := if isHost then RolePlayer else RoleSpectator in
      let slot := if isHost then Slot1 else SlotNone in
      let p := mkParticipant id name role slot isHost isHost isHost in
      let ps := <[id := p]> (participants s) in
      let sl := if Nat.eqb slot SlotNone then slots s
                else set_slot (slots s) slot (Some id) in
      let h := if isHost then id else hostID s in
      (mkSession ps sl h, p)
  end.

(** The [for _, participant := range s.participants] loop of [Leave].
    Go's map iteration order is unspecified: [order] is the order the
    runtime happens to visit the keys in.  The first [RolePlayer] met is
    made host; the result is the updated map and the new [s.hostID]
    ([""] when the loop finds no player). *)
Fixpoint promote (ps : gmap string Participant) (order : list string)
    : gmap string Participant * string :=
  match order with
  | [] => (ps, "")
  | k :: ks =>
      match ps !! k with
      | Some q =>
          if decide (PRole q = RolePlayer)
          then (<[k := make_host q]> ps, ID q)
          else promote ps ks
      | None => promote ps ks
      end
  end.

(** [Session.Leave]: returns the new state, the removed participant and
    the [sessionEnded] flag [wasHost && s.hostID == ""]. *)
Definition Leave (s : Session) (id : string) (order : list string)
    : Session * option Participant * bool :=
  match participants s !! id with
  | None => (s, None, false)
  | Some p =>
      let sl := if Nat.eqb (Slot p) SlotNone then slots s
                else set_slot (slots s) (Slot p) None in
      let ps := delete id (participants s) in
      let wasHost := IsHost p in
      if wasHost then
        let '(ps', h) := promote ps order in
        (mkSession ps' sl h, Some p, String.eqb h "")
      else
        (mkSession ps sl (hostID s), Some p, false)
  end.

(** [for i := Slot1; i <= Slot4; i++ { if s.slots[i] == nil { ... break } }] *)
Fixpoint first_free (sl : list (option string)) (i : PlayerSlot) (fuel : nat)
    : PlayerSlot :=
  match fuel with
  | O => SlotNone
  | S fuel' =>
      match sl !! i with
      | Some None => i
      | _ => first_free sl (S i) fuel'
      end
  end.

Definition find_slot (sl : list (option string)) : PlayerSlot :=
  first_free sl Slot1 4.

(** [Session.JoinAsPlayer]; [None] is a nil error. *)
Definition JoinAsPlayer (s : Session) (id : string) : Session * option Error :=
  match participants s !! id with
  | None => (s, Some ErrNoSession)
  | Some p =>
      if decide (PRole p = RolePlayer) then (s, Some ErrAlreadyPlayer)
      else
        let slot := find_slot (slots s) in
        if Nat.eqb slot SlotNone then (s, Some ErrNoSlotAvailable)
        else
          (mkSession (<[id := set_role_slot p RolePlayer slot]> (participants s))
                     (set_slot (slots s) slot (Some id)) (hostID s), None)
  end.

(** [Session.Spectate] *)
Definition Spectate (s : Session) (id : string) : Session * option Error :=
  match participants s !! id with
  | None => (s, Some ErrNoSession)
  | Some p =>
      if negb (bool_decide (PRole p = RolePlayer)) then (s, Some ErrNotAPlayer)
      else if IsHost p then (s, Some ErrNotHost)
      else
        let sl := if Nat.eqb (Slot p) SlotNone then slots s
                  else set_slot (slots s) (Slot p) None in
        let p' := set_mouse (set_keyboard (set_role_slot p RoleSpectator SlotNone)
                                          false) false in
        (mkSession (<[id := p']> (participants s)) sl (hostID s), None)
  end.

(** [Session.SetKeyboardPermission] *)
Definition SetKeyboardPermission (s : Session) (hid targetID : string)
    (allowed : bool) : Session * option Error :=
  if negb (String.eqb (hostID s) hid) then (s, Some ErrNotHost)
  else match participants s !! targetID with
       | None => (s, Some ErrNoSession)
       | Some p =>
           (mkSession (<[targetID := set_keyboard p allowed]> (participants s))
                      (slots s) (hostID s), None)
       end.

(** [Session.SetMousePermission] *)
Definition SetMousePermission (s : Session) (hid targetID : string)
    (allowed : bool) : Session * option Error :=
  if negb (String.eqb (hostID s) hid) then (s, Some ErrNotHost)
  else match participants s !! targetID with
       | None => (s, Some ErrNoSession)
       | Some p =>
           (mkSession (<[targetID := set_mouse p allowed]> (participants s))
                      (slots s) (hostID s), None)
       end.

(** [Session.GetActiveGamepads] *)
Fixpoint gamepads_loop (sl : list (option string)) (i : PlayerSlot) (fuel : nat)
    (mask : Z) : Z :=
  match fuel with
  | O => mask
  | S fuel' =>
      let mask' := match sl !! i with
                   | Some (Some _) => Z.lor mask (Z.shiftl 1 (Z.of_nat i - 1))
                   | _ => mask
                   end in
      gamepads_loop sl (S i) fuel' mask'
  end.

Definition GetActiveGamepads (s : Session) : Z :=
  gamepads_loop (slots s) Slot1 4 0.

(** The mutating operations of the session API. *)
Inductive op :=
  | OpJoin (id name : string)
  | OpLeave (id : string) (order : list string)
  | OpJoinAsPlayer (id : string)
  | OpSpectate (id : string)
  | OpSetKeyboard (hid target : string) (allowed : bool)
  | OpSetMouse (hid target : string) (allowed : bool).

Definition step (s : Session) (o : op) : Session :=
  match o with
  | OpJoin id name => fst (Join s id name)
  | OpLeave id order => fst (fst (Leave s id order))
  | OpJoinAsPlayer id => fst (JoinAsPlayer s id)
  | OpSpectate id => fst (Spectate s id)
  | OpSetKeyboard h t b => fst (SetKeyboardPermission s h t b)
  | OpSetMouse h t b => fst (SetMousePermission s h t b)
  end.

Definition run (s : Session) (os : list op) : Session := fold_left step os s.

(** States reachable from [CreateSession] by any sequence of operations.
    [OpLeave] carries any key order, which covers every order the Go
    runtime may choose. *)
Inductive reachable : Session -> Prop :=
  | reach_init : reachable empty_session
  | reach_step s o : reachable s -> reachable (step s o).

End Session.

(* ===================================================================== *)
(** ** Binary input parsers (package input) *)
(* ===================================================================== *)

Module Input.

Definition bytes := list Byte.byte.

Definition byte_val (b : Byte.byte) : Z := Z.of_N (Byte.to_N b).

(** Result of a [Parse...Data] call: [Parsed None] is [(nil, nil)],
    [Parsed (Some e)] is [(&e, nil)], and [OutOfRange] is an index or
    slice expression past [len(data)]: a run-time panic when the slice
    has no spare capacity, a read past the argument's end otherwise. *)
Inductive ParseResult (A : Type) :=
  | Parsed (ev : option A)
  | OutOfRange.
Arguments Parsed {A} ev.
Arguments OutOfRange {A}.

(** [data[i]] *)
Definition index (data : bytes) (i : nat) : option Byte.byte := nth_error data i.

(** [data[lo:hi]], bounds checked against [len(data)]. *)
Definition slice (data : bytes) (lo hi : nat) : option bytes :=
  if Nat.leb lo hi && Nat.leb hi (length data)
  then Some (firstn (hi - lo) (skipn lo data)) else None.

(** [binary.LittleEndian.Uint16] / [Uint32] (they index [b[1]] / [b[3]]). *)
Definition Uint16 (b : bytes) : option Z :=
  match b with
  | x0 :: x1 :: _ => Some (byte_val x0 + byte_val x1 * 256)%Z
  | _ => None
  end.

Definition Uint32 (b : bytes) : option Z :=
  match b with
  | x0 :: x1 :: x2 :: x3 :: _ =>
      Some (byte_val x0 + byte_val x1 * 256 + byte_val x2 * 65536
            + byte_val x3 * 16777216)%Z
  | _ => None
  end.

(** [int16(u)] for a [uint16] value [u]: two's-complement wrap. *)
Definition int16 (u : Z) : Z := if Z.ltb u 32768 then u else (u - 65536)%Z.

Definition get {A B} (m : option A) (k : A -> ParseResult B) : ParseResult B :=
  match m with Some x => k x | None => OutOfRange end.

Notation "'let!' x ':=' m 'in' k" := (get m (fun x => k))
  (at level 200, x name, m at level 100, k at level 200).

Record MouseMoveEvent := { DeltaX : Z; DeltaY : Z }.
Record MousePositionEvent := { PX : Z; PY : Z; Width : Z; Height : Z }.
Record MouseButtonEvent := { Button : Z; BAction : Z }.
Record MouseScrollEvent := { Amount : Z }.
Record KeyboardEvent := { KeyCode : Z; KAction : Z; Modifiers : Z }.
Record ControllerEvent := {
  ControllerNumber : Z; Buttons : Z; LeftTrigger : Z; RightTrigger : Z;
  LeftStickX : Z; LeftStickY : Z; RightStickX : Z; RightStickY : Z }.

(** [ParseControllerData] *)
Definition ParseControllerData (data : bytes) : ParseResult ControllerEvent :=
  if Nat.ltb (length data) 13 then Parsed None else
  let! c := index data 0 in
  let! b := slice data 1 5 in let! buttons := Uint32 b in
  let! lt := index data 5 in
  let! rt := index data 6 in
  let! s1 := slice data 7 9 in let! lx := Uint16 s1 in
  let! s2 := slice data 9 11 in let! ly := Uint16 s2 in
  let! s3 := slice data 11 13 in let! rx := Uint16 s3 in
  let! s4 := slice data 13 15 in let! ry := Uint16 s4 in
  Parsed (Some {| ControllerNumber := byte_val c; Buttons := buttons;
                  LeftTrigger := byte_val lt; RightTrigger := byte_val rt;
                  LeftStickX := int16 lx; LeftStickY := int16 ly;
                  RightStickX := int16 rx; RightStickY := int16 ry |}).

(** [ParseMouseMoveData] *)
Definition ParseMouseMoveData (data : bytes) : ParseResult MouseMoveEvent :=
  if Nat.ltb (length data) 4 then Parsed None else
  let! s1 := slice data 0 2 in let! dx := Uint16 s1 in
  let! s2 := slice data 2 4 in let! dy := Uint16 s2 in
  Parsed (Some {| DeltaX := int16 dx; DeltaY := int16 dy |}).

(** [ParseMousePositionData] *)
Definition ParseMousePositionData (data : bytes) : ParseResult MousePositionEvent :=
  if Nat.ltb (length data) 8 then Parsed None else
  let! s1 := slice data 0 2 in let! x := Uint16 s1 in
  let! s2 := slice data 2 4 in let! y := Uint16 s2 in
  let! s3 := slice data 4 6 in let! w := Uint16 s3 in
  let! s4 := slice data 6 8 in let! h := Uint16 s4 in
  Parsed (Some {| PX := int16 x; PY := int16 y; Width := int16 w;
                  Height := int16 h |}).

(** [ParseKeyboardData] *)
Definition ParseKeyboardData (data : bytes) : ParseResult KeyboardEvent :=
  if Nat.ltb (length data) 4 then Parsed None else
  let! s1 := slice data 0 2 in let! code := Uint16 s1 in
  let! a := index data 2 in
  let! m := index data 3 in
  Parsed (Some {| KeyCode := code; KAction := byte_val a;
                  Modifiers := byte_val m |}).

(** [ParseMouseButtonData] *)
Definition ParseMouseButtonData (data : bytes) : ParseResult MouseButtonEvent :=
  if Nat.ltb (length data) 2 then Parsed None else
  let! b := index data 0 in
  let! a := index data 1 in
  Parsed (Some {| Button := byte_val b; BAction := byte_val a |}).

(** [ParseMouseScrollData] *)
Definition ParseMouseScrollData (data : bytes) : ParseResult MouseScrollEvent :=
  if Nat.ltb (length data) 2 then Parsed None else
  let! s1 := slice data 0 2 in let! a := Uint16 s1 in
  Parsed (Some {| Amount := int16 a |}).

End Input.

(* ===================================================================== *)
(** ** crypto/sha256 (FIPS 180-4), as used by pair.go *)
(* ===================================================================== *)

Module Sha256.

Local Open Scope Z_scope.

Definition bytes := list Byte.byte.

Definition mask32 : Z := 0xffffffff.
Definition add32 (x y : Z) : Z := Z.land (x + y) mask32.
Definition rotr (x : Z) (n : Z) : Z :=
  Z.land (Z.lor (Z.shiftr x n) (Z.shiftl x (32 - n))) mask32.

Definition Ch (e f g : Z) : Z := Z.lxor (Z.land e f) (Z.land (Z.lxor e mask32) g).
Definition Maj (a b c : Z) : Z :=
  Z.lxor (Z.lxor (Z.land a b) (Z.land a c)) (Z.land b c).
Definition Sigma0 (a : Z) : Z := Z.lxor (Z.lxor (rotr a 2) (rotr a 13)) (rotr a 22).
Definition Sigma1 (e : Z) : Z := Z.lxor (Z.lxor (rotr e 6) (rotr e 11)) (rotr e 25).
Definition sigma0 (w : Z) : Z := Z.lxor (Z.lxor (rotr w 7) (rotr w 18)) (Z.shiftr w 3).
Definition sigma1 (w : Z) : Z := Z.lxor (Z.lxor (rotr w 17) (rotr w 19)) (Z.shiftr w 10).

(** Round constants and initial hash value (FIPS 180-4, 4.2.2 and
    5.3.3), written in decimal. *)
Definition K : list Z := [
  1116352408; 1899447441; 3049323471; 3921009573; 961987163; 1508970993;
  2453635748; 2870763221; 3624381080; 310598401; 607225278; 1426881987;
  1925078388; 2162078206; 2614888103; 3248222580; 3835390401; 4022224774;
  264347078; 604807628; 770255983; 1249150122; 1555081692; 1996064986;
  2554220882; 2821834349; 2952996808; 3210313671; 3336571891; 3584528711;
  113926993; 338241895; 666307205; 773529912; 1294757372; 1396182291;
  1695183700; 1986661051; 2177026350; 2456956037; 2730485921; 2820302411;
  3259730800; 3345764771; 3516065817; 3600352804; 4094571909; 275423344;
  430227734; 506948616; 659060556; 883997877; 958139571; 1322822218;
  1537002063; 1747873779; 1955562222; 2024104815; 2227730452; 2361852424;
  2428436474; 2756734187; 3204031479; 3329325298].

Definition H0 : list Z := [
  1779033703; 3144134277; 1013904242; 2773480762; 1359893119; 2600822924;
  528734635; 1541459225].

Definition byte_of_Z (z : Z) : Byte.byte :=
  match Byte.of_N (Z.to_N (Z.land z 255)) with Some b => b | None => Byte.x00 end.
Definition Z_of_byte (b : Byte.byte) : Z := Z.of_N (Byte.to_N b).

(** Message padding: [0x80], zeros up to 56 mod 64, the bit length as a
    64-bit big-endian integer. *)
Definition be_bytes (n : nat) (x : Z) : list Z :=
  map (fun i => Z.land (Z.shiftr x (8 * Z.of_nat (n - 1 - i))) 255) (seq 0 n).

Definition pad (m : list Z) : list Z :=
  let l := length m in
  let zeros := ((119 - l mod 64) mod 64)%nat in
  m ++ [128] ++ repeat 0 zeros ++ be_bytes 8 (8 * Z.of_nat l).

Definition word_of (b : list Z) : Z :=
  fold_left (fun acc x => acc * 256 + x) b 0.

Fixpoint words (fuel : nat) (b : list Z) : list Z :=
  match fuel with
  | O => []
  | S f => match b with
           | [] => []
           | _ => word_of (firstn 4 b) :: words f (skipn 4 b)
           end
  end.

Fixpoint blocks (fuel : nat) (b : list Z) : list (list Z) :=
  match fuel with
  | O => []
  | S f => match b with
           | [] => []
           | _ => firstn 64 b :: blocks f (skipn 64 b)
           end
  end.

(** Message schedule W[0..63]. *)
Fixpoint extend (n : nat) (w : list Z) : list Z :=
  match n with
  | O => w
  | S n' =>
      let t := length w in
      let x := add32 (add32 (sigma1 (nth (t - 2) w 0)) (nth (t - 7) w 0))
                     (add32 (sigma0 (nth (t - 15) w 0)) (nth (t - 16) w 0)) in
      extend n' (w ++ [x])
  end.

Definition round (st : list Z) (kw : Z * Z) : list Z :=
  match st with
  | [a; b; c; d; e; f; g; h] =>
      let t1 := add32 (add32 (add32 h (Sigma1 e)) (add32 (Ch e f g) (fst kw)))
                      (snd kw) in
      let t2 := add32 (Sigma0 a) (Maj a b c) in
      [add32 t1 t2; a; b; c; add32 d t1; e; f; g]
  | _ => st
  end.

Definition compress (st : list Z) (block : list Z) : list Z :=
  let w := extend 48 (words 16 block) in
  let st' := fold_left round (combine K w) st in
  zip_with add32 st st'.

Definition digest_words (m : list Z) : list Z :=
  let p := pad m in
  fold_left compress (blocks (length p) p) H0.

(** [sha256.Sum256] / [h.Sum(nil)] after writing [m]: 32 bytes. *)
Definition sha256 (m : bytes) : bytes :=
  let w := digest_words (map Z_of_byte m) in
  map byte_of_Z (flat_map (be_bytes 4)
    [nth 0 w 0; nth 1 w 0; nth 2 w 0; nth 3 w 0;
     nth 4 w 0; nth 5 w 0; nth 6 w 0; nth 7 w 0]).

End Sha256.

(* ===================================================================== *)
(** ** pkg/sunshine/pair.go *)
(* ===================================================================== *)

Module Pair.

Import Sha256.

(** Outcome of a Go call returning [([]byte, error)] or [error]:
    a value, an error, or a run-time panic. *)
Inductive GoResult (A : Type) :=
  | Ok (v : A)
  | Err (msg : string)
  | Panic (msg : string).
Arguments Ok {A} v.
Arguments Err {A} msg.
Arguments Panic {A} msg.

(** *** deriveAESKey *)

(** A PIN is a Go string; [for _, c := range pin] visits its runes
    (Unicode code points), so the PIN is given here by that rune list.
    The string's bytes are the UTF-8 encoding of the runes
    ([utf8_encode] below). *)
Definition rune := Z.

(** [byte(c)] for a rune [c]: the low 8 bits. *)
Definition rune_to_byte (c : rune) : Byte.byte := byte_of_Z (Z.land c 255).

(** [deriveAESKey(pin, salt)]: one [h.Write([]byte{byte(c)})] per rune. *)
Definition deriveAESKey (pin : list rune) (salt : bytes) : bytes :=
  firstn 16 (sha256 (salt ++ map rune_to_byte pin)).

(** UTF-8 encoding of one rune (what [[]byte(string)] holds). *)
Definition utf8_encode (c : rune) : list Byte.byte :=
  map byte_of_Z
    (if Z.ltb c 0x80 then [c]
     else if Z.ltb c 0x800 then
       [Z.lor 0xC0 (Z.shiftr c 6); Z.lor 0x80 (Z.land c 0x3F)]
     else if Z.ltb c 0x10000 then
       [Z.lor 0xE0 (Z.shiftr c 12); Z.lor 0x80 (Z.land (Z.shiftr c 6) 0x3F);
        Z.lor 0x80 (Z.land c 0x3F)]
     else
       [Z.lor 0xF0 (Z.shiftr c 18); Z.lor 0x80 (Z.land (Z.shiftr c 12) 0x3F);
        Z.lor 0x80 (Z.land (Z.shiftr c 6) 0x3F); Z.lor 0x80 (Z.land c 0x3F)]).

(** The key as the spec defines it: SHA-256(salt ‖ PIN-UTF-8-bytes)[:16]. *)
Definition spec_pairing_key (pin : list rune) (salt : bytes) : bytes :=
  firstn 16 (sha256 (salt ++ flat_map utf8_encode pin)).

(** *** aesEncrypt / aesDecrypt *)

Definition BlockSize : nat := 16.

Definition xor_byte (a b : Byte.byte) : Byte.byte :=
  byte_of_Z (Z.lxor (Z_of_byte a) (Z_of_byte b)).
Definition xor_block (a b : bytes) : bytes := zip_with xor_byte a b.

(** Split a buffer into [BlockSize]-byte blocks. *)
Fixpoint chunks (fuel : nat) (b : bytes) : list bytes :=
  match fuel with
  | O => []
  | S f => match b with
           | [] => []
           | _ => firstn BlockSize b :: chunks f (skipn BlockSize b)
           end
  end.

Definition to_blocks (b : bytes) : list bytes := chunks (length b) b.

Section Cipher.

(** The AES block function of [crypto/aes] for a given key, on one
    16-byte block, and its inverse. *)
Variable aes_encrypt_block : bytes -> bytes -> bytes.
Variable aes_decrypt_block : bytes -> bytes -> bytes.

(** [aes.NewCipher(key)]: a [KeySizeError] unless the key has 16, 24 or
    32 bytes. *)
Definition NewCipher (key : bytes) : option bytes :=
  let n := length key in
  if Nat.eqb n 16 || Nat.eqb n 24 || Nat.eqb n 32 then Some key else None.

(** [cipher.NewCBCEncrypter(block, iv).CryptBlocks] *)
Fixpoint cbc_encrypt (key iv : bytes) (bs : list bytes) : list bytes :=
  match bs with
  | [] => []
  | b :: bs' =>
      let c := aes_encrypt_block key (xor_block b iv) in
      c :: cbc_encrypt key c bs'
  end.

(** [cipher.NewCBCDecrypter(block, iv).CryptBlocks] *)
Fixpoint cbc_decrypt (key iv : bytes) (bs : list bytes) : list bytes :=
  match bs with
  | [] => []
  | c :: bs' => xor_block (aes_decrypt_block key c) iv :: cbc_decrypt key c bs'
  end.

Definition zero_iv : bytes := repeat Byte.x00 BlockSize.

(** [aesEncrypt(key, plaintext)] *)
Definition aesEncrypt (key plaintext : bytes) : GoResult bytes :=
  match NewCipher key with
  | None => Err "crypto/aes: invalid key size"
  | Some k =>
      let padding := (BlockSize - length plaintext mod BlockSize)%nat in
      let padtext := plaintext ++ repeat (byte_of_Z (Z.of_nat padding)) padding in
      Ok (concat (cbc_encrypt k zero_iv (to_blocks padtext)))
  end.

(** [aesDecrypt(key, ciphertext)]; [plaintext[len(plaintext)-1]] panics
    when the index is negative. *)
Definition aesDecrypt (key ciphertext : bytes) : GoResult bytes :=
  match NewCipher key with
  | None => Err "crypto/aes: invalid key size"
  | Some k =>
      if negb (Nat.eqb (length ciphertext mod BlockSize) 0)
      then Err "ciphertext is not a multiple of block size"
      else
        let plaintext := concat (cbc_decrypt k zero_iv (to_blocks ciphertext)) in
        let last := (Z.of_nat (length plaintext) - 1)%Z in
        if Z.ltb last 0 then Panic "index out of range [-1]"
        else
          let padding := Z_of_byte (nth (Z.to_nat last) plaintext Byte.x00) in
          if Z.ltb (Z.of_nat BlockSize) padding || Z.eqb padding 0
          then Err "invalid padding"
          else Ok (firstn (length plaintext - Z.to_nat padding) plaintext)
  end.

End Cipher.

(** *** verifyServerPairingSecret *)

(** The dynamic type of [serverCert.PublicKey]. *)
Inductive PublicKey :=
  | RSAPublicKey (n e : Z)
  | OtherPublicKey.

Record Certificate := {
  CertPublicKey : PublicKey;
  RawTBSCertificate : bytes
}.

(** [for i := range expectedHash { if serverHash[i] != expectedHash[i] ... }]:
    [Ok true] when all bytes agree. *)
Fixpoint hash_loop (expected serverHash : bytes) : GoResult bool :=
  match expected with
  | [] => Ok true
  | x :: xs =>
      match serverHash with
      | [] => Panic "index out of range"
      | y :: ys => if Byte.eqb y x then hash_loop xs ys else Ok false
      end
  end.

(** [verifyServerPairingSecret(secret, serverCert, salt)];
    [rsa_verify pub hash sig] models whether [rsa.VerifyPKCS1v15]
    returns a nil error. *)
Definition verifyServerPairingSecret
    (rsa_verify : PublicKey -> bytes -> bytes -> bool)
    (secret : bytes) (serverCert : Certificate) (salt : bytes) : GoResult unit :=
  if Nat.ltb (length secret) 256 then Err "pairing secret too short" else
  let serverSignature := firstn 256 secret in
  let serverHash := skipn 256 secret in
  let expectedHash := sha256 (salt ++ serverSignature) in
  if Nat.ltb (length serverHash) (length expectedHash)
  then Err "server hash too short" else
  match hash_loop expectedHash serverHash with
  | Panic m => Panic m
  | Err m => Err m
  | Ok false => Err "server pairing secret hash mismatch"
  | Ok true =>
      match CertPublicKey serverCert with
      | OtherPublicKey => Err "server certificate has non-RSA public key"
      | RSAPublicKey _ _ as pub =>
          let certHash := sha256 (RawTBSCertificate serverCert) in
          if rsa_verify pub certHash serverSignature then Ok tt
          else Ok tt
      end
  end.

End Pair.

(* ===================================================================== *)
(** ** Client.Launch / Client.Resume and the stream-start path *)
(* ===================================================================== *)

Module Launch.

(** [session.StreamSettings] *)
Record StreamSettings := {
  Bitrate : Z; FPS : Z; Width : Z; Height : Z }.

(** [sunshine.LaunchRequest] *)
Record LaunchRequest := {
  AppID : Z; RWidth : Z; RHeight : Z; RFPS : Z; RBitrate : Z;
  RIKey : list Byte.byte; RIKeyID : Z; LocalAudio : bool; Gamepads : Z }.

(** The [sunshine.Client] fields used by [addClientParams]. *)
Record Client := { uniqueID : string; uuid : string }.

(** [url.Values] after [Set] calls: one value per key. *)
Abbreviation Values := (gmap string string).

(** [strconv.Itoa] / [strconv.FormatUint(_, 10)] *)
Definition Itoa (z : Z) : string := pretty z.

(** [strings.ToUpper(hex.EncodeToString(b))] *)
Definition hex_digit (d : Z) : string :=
  match String.get (Z.to_nat d) "0123456789ABCDEF" with
  | Some c => String c EmptyString
  | None => EmptyString
  end.
Definition hex_upper (b : list Byte.byte) : string :=
  foldr (fun x acc =>
           let v := Sha256.Z_of_byte x in
           String.append (String.append (hex_digit (Z.shiftr v 4))
                                        (hex_digit (Z.land v 15))) acc)
        EmptyString b.

(** [c.addClientParams(params)] *)
Definition addClientParams (c : Client) (params : Values) : Values :=
  <["uuid" := uuid c]> (<["uniqueid" := uniqueID c]> params).

(** The parameters [Launch] and [Resume] both set, in source order. *)
Definition request_params (c : Client) (req : LaunchRequest) : Values :=
  let p := addClientParams c ∅ in
  let p := <["appid" := Itoa (AppID req)]> p in
  let p := <["mode" := String.append (Itoa (RWidth req))
             (String.append "x" (String.append (Itoa (RHeight req))
               (String.append "x" (Itoa (RFPS req)))))]> p in
  let p := <["additionalStates" := "1"]> p in
  let p := <["sops" := "1"]> p in
  let p := <["rikey" := hex_upper (RIKey req)]> p in
  let p := <["rikeyid" := Itoa (RIKeyID req)]> p in
  let p := <["localAudioPlayMode" := if LocalAudio req then "1" else "0"]> p in
  let p := <["remoteControllersBitmap" := Itoa (Gamepads req)]> p in
  let p := <["gcmap" := Itoa (Gamepads req)]> p in
  <["gcpersist" := "0"]> p.

(** [Client.Launch]: the endpoint and query sent to the host. *)
Definition Launch (c : Client) (req : LaunchRequest) : string * Values :=
  ("launch", request_params c req).

(** [Client.Resume] *)
Definition Resume (c : Client) (req : LaunchRequest) : string * Values :=
  ("resume", request_params c req).

(** An entry of [GetAppList]. *)
Record App := { AppIDOf : Z; Title : string }.

(** The app lookup of the [OnStartStream] callback in [main]. *)
Definition find_app (apps : list App) (defaultApp : string) : Z :=
  let found := match List.find (fun a => String.eqb (Title a) defaultApp) apps with
               | Some a => AppIDOf a
               | None => 0%Z
               end in
  match apps with
  | a :: _ => if Z.eqb found 0 then AppIDOf a else found
  | [] => found
  end.

(** The [LaunchRequest] the [OnStartStream] callback passes to [Launch]. *)
Definition start_stream_request (apps : list App) (defaultApp : string)
    (settings : StreamSettings) : LaunchRequest :=
  {| AppID := find_app apps defaultApp;
     RWidth := Width settings; RHeight := Height settings; RFPS := FPS settings;
     RBitrate := Bitrate settings;
     RIKey := map (fun i => Sha256.byte_of_Z (Z.of_nat i)) (seq 0 16);
     RIKeyID := 1; LocalAudio := false;
     Gamepads := 0xF |}.

(** [Server.handleClientJoin] with the stream-start callback inlined.
    When no session exists, [CreateSession] makes an empty one and the
    callback launches the stream before the client joins; the result
    records that session (the state at launch time) and the request,
    then the session after [Join]. *)
Definition handleClientJoin (current : option Session.Session)
    (apps : list App) (defaultApp : string) (settings : StreamSettings)
    (clientID : string)
    : option (Session.Session * LaunchRequest) * Session.Session :=
  match current with
  | None =>
      let sess := Session.empty_session in
      let req := start_stream_request apps defaultApp settings in
      (Some (sess, req), fst (Session.Join sess clientID "Player"))
  | Some sess => (None, fst (Session.Join sess clientID "Player"))
  end.

End Launch.

(* ===================================================================== *)
(** ** Session read accessors (pkg/session/session.go) *)
(* ===================================================================== *)

Module SessionRead.

Import Session.

(** [Session.GetParticipant] *)
Definition GetParticipant (s : Session) (id : string) : option Participant :=
  participants s !! id.

(** [for i := Slot1; i <= Slot4; i++ { if s.slots[i] != nil { result = append(result, s.slots[i]) } }].
    A slot entry is a pointer to a participant, modelled by its id. *)
Fixpoint players_loop (sl : list (option string)) (i : PlayerSlot) (fuel : nat)
    : list string :=
  match fuel with
  | O => []
  | S fuel' =>
      match sl !! i with
      | Some (Some id) => id :: players_loop sl (S i) fuel'
      | _ => players_loop sl (S i) fuel'
      end
  end.

(** [Session.GetPlayers] *)
Definition GetPlayers (s : Session) : list string :=
  players_loop (slots s) Slot1 4.

(** [Session.GetSpectatorCount]: the [range] loop over the map counting
    [p.Role == RoleSpectator]; [map_to_list] stands for the runtime's
    iteration order, which the count does not depend on. *)
Definition GetSpectatorCount (s : Session) : nat :=
  fold_left (fun count (kp : string * Participant) =>
               if decide (PRole kp.2 = RoleSpectator) then S count else count)
            (map_to_list (participants s)) 0.

(** [Session.GetHost] *)
Definition GetHost (s : Session) : option Participant :=
  if String.eqb (hostID s) "" then None else participants s !! hostID s.

(** [Session.IsHost] (renamed: [IsHost] is the participant field). *)
Definition SessionIsHost (s : Session) (id : string) : bool :=
  String.eqb (hostID s) id.

(** [Session.GetSlotByID] *)
Definition GetSlotByID (s : Session) (id : string) : PlayerSlot :=
  match participants s !! id with Some p => Slot p | None => SlotNone end.

(** [Session.CanUseKeyboard] *)
Definition CanUseKeyboard (s : Session) (id : string) : bool :=
  match participants s !! id with Some p => CanKeyboard p | None => false end.

(** [Session.CanUseMouse] *)
Definition CanUseMouse (s : Session) (id : string) : bool :=
  match participants s !! id with Some p => CanMouse p | None => false end.

End SessionRead.

(* ===================================================================== *)
(** ** pkg/web/server.go: data channels, joins, leaves, permissions *)
(* ===================================================================== *)

Module Server.

Import Session SessionRead Input.

(** The [inputHandler] method [handleDataMessage] calls, with its
    arguments. *)
Inductive HandlerCall :=
  | HandleMouseMove (dx dy : Z)
  | HandleMousePosition (x y w h : Z)
  | HandleMouseButton (button action : Z)
  | HandleMouseScroll (amount : Z)
  | HandleKeyboard (keyCode action modifiers : Z)
  | HandleController (event : ControllerEvent).

(** What one data-channel message does: nothing, one handler call, or a
    run-time panic of the parser. *)
Inductive Outcome :=
  | Ignored
  | Called (c : HandlerCall)
  | Panicked.

(** [if event, err := input.ParseX(data); err == nil && event != nil { ... }] *)
Definition dispatch {A} (r : ParseResult A) (k : A -> HandlerCall) : Outcome :=
  match r with
  | Parsed (Some e) => Called (k e)
  | Parsed None => Ignored
  | OutOfRange => Panicked
  end.

(** [event.ControllerNumber = n] *)
Definition set_controller_number (e : ControllerEvent) (n : Z) : ControllerEvent :=
  {| ControllerNumber := n; Buttons := Buttons e;
     LeftTrigger := LeftTrigger e; RightTrigger := RightTrigger e;
     LeftStickX := LeftStickX e; LeftStickY := LeftStickY e;
     RightStickX := RightStickX e; RightStickY := RightStickY e |}.

(** A [case] with several labels. *)
Definition is_one_of (c : string) (labels : list string) : bool :=
  existsb (String.eqb c) labels.

(** [Server.handleDataMessage]; [current] is [s.sessionManager.GetSession()].
    [uint8(slot - 1)] keeps the low 8 bits. *)
Definition handleDataMessage (current : option Session) (peerID channel : string)
    (data : bytes) : Outcome :=
  match current with
  | None => Ignored
  | Some sess =>
      if is_one_of channel ["mouse_relative"; "mouse_move"] then
        if negb (CanUseMouse sess peerID) then Ignored
        else dispatch (ParseMouseMoveData data)
               (fun e => HandleMouseMove (DeltaX e) (DeltaY e))
      else if is_one_of channel ["mouse_absolute"; "mouse_position"] then
        if negb (CanUseMouse sess peerID) then Ignored
        else dispatch (ParseMousePositionData data)
               (fun e => HandleMousePosition (PX e) (PY e) (Width e) (Height e))
      else if is_one_of channel ["mouse_button"] then
        if negb (CanUseMouse sess peerID) then Ignored
        else dispatch (ParseMouseButtonData data)
               (fun e => HandleMouseButton (Button e) (BAction e))
      else if is_one_of channel ["mouse_scroll"] then
        if negb (CanUseMouse sess peerID) then Ignored
        else dispatch (ParseMouseScrollData data)
               (fun e => HandleMouseScroll (Amount e))
      else if is_one_of channel ["keyboard"] then
        if negb (CanUseKeyboard sess peerID) then Ignored
        else dispatch (ParseKeyboardData data)
               (fun e => HandleKeyboard (KeyCode e) (KAction e) (Modifiers e))
      else if is_one_of channel ["controllers"; "controller0"; "controller1";
                                 "controller2"; "controller3"] then
        let slot := GetSlotByID sess peerID in
        if Nat.eqb slot SlotNone then Ignored
        else dispatch (ParseControllerData data)
               (fun e => HandleController
                           (set_controller_number e (Z.land (Z.of_nat slot - 1) 255)))
      else Ignored
  end.

(** [Server.handleClientJoin], for the session the manager holds.
    [startOk] is whether the stream-start callback succeeded (or is not
    set); on failure the new session is ended and the client does not
    join. *)
Definition handleClientJoin (current : option Session) (startOk : bool)
    (clientID : string) : option Session :=
  match current with
  | Some sess => Some (fst (Join sess clientID "Player"))
  | None =>
      if startOk then Some (fst (Join empty_session clientID "Player"))
      else None
  end.

(** [Server.handleClientLeave]: the session the manager holds afterwards
    and whether [onStopStream] ran.  [order] is the map iteration order
    [Leave] sees. *)
Definition handleClientLeave (current : option Session) (clientID : string)
    (order : list string) : option Session * bool :=
  match current with
  | None => (None, false)
  | Some sess =>
      let '(sess', _, sessionEnded) := Leave sess clientID order in
      if sessionEnded then (None, true) else (Some sess', false)
  end.

(** [Client.handleJoinAsPlayer] *)
Definition handleJoinAsPlayer (current : option Session) (clientID : string)
    : option Session :=
  match current with
  | None => None
  | Some sess => Some (fst (JoinAsPlayer sess clientID))
  end.

(** [Client.handleSpectate] *)
Definition handleSpectate (current : option Session) (clientID : string)
    : option Session :=
  match current with
  | None => None
  | Some sess => Some (fst (Spectate sess clientID))
  end.

(** [Client.handleSetPermission]: both branches of each [if] pass the
    flag's value. *)
Definition handleSetPermission (current : option Session) (clientID targetID : string)
    (keyboard mouse : bool) : option Session :=
  match current with
  | None => None
  | Some sess =>
      let sess1 := fst (SetKeyboardPermission sess clientID targetID keyboard) in
      Some (fst (SetMousePermission sess1 clientID targetID mouse))
  end.

(** The WebSocket events that change the session: a connection, a
    disconnection, and the [join_as_player], [spectate] and
    [set_permission] messages of a client. *)
Inductive event :=
  | EvConnect (clientID : string) (startOk : bool)
  | EvDisconnect (clientID : string) (order : list string)
  | EvJoinAsPlayer (clientID : string)
  | EvSpectate (clientID : string)
  | EvSetPermission (clientID targetID : string) (keyboard mouse : bool).

Definition event_client (e : event) : string :=
  match e with
  | EvConnect c _ | EvDisconnect c _ | EvJoinAsPlayer c | EvSpectate c
  | EvSetPermission c _ _ _ => c
  end.

Definition server_step (current : option Session) (e : event) : option Session :=
  match e with
  | EvConnect c ok => handleClientJoin current ok c
  | EvDisconnect c order => fst (handleClientLeave current c order)
  | EvJoinAsPlayer c => handleJoinAsPlayer current c
  | EvSpectate c => handleSpectate current c
  | EvSetPermission c t kb ms => handleSetPermission current c t kb ms
  end.

(** Manager states reachable from [NewManager] (no session).  A client's
    id is [uuid.New().String()], never empty. *)
Inductive server_reachable : option Session -> Prop :=
  | sr_init : server_reachable None
  | sr_step m e : server_reachable m -> event_client e <> "" ->
                  server_reachable (server_step m e).

End Server.

(* ===================================================================== *)
(** ** web/static/app.js: the data-channel senders *)
(* ===================================================================== *)

Module Browser.

Import Input.

(** ECMAScript [ToUint8], [ToUint16], [ToUint32] and [ToInt16], for the
    integral Numbers the input code passes. *)
Definition ToUint8 (z : Z) : Z := (z mod 256)%Z.
Definition ToUint16 (z : Z) : Z := (z mod 65536)%Z.
Definition ToUint32 (z : Z) : Z := (z mod 4294967296)%Z.
Definition ToInt16 (z : Z) : Z :=
  let u := (z mod 65536)%Z in if Z.geb u 32768 then (u - 65536)%Z else u.

(** The [n] bytes of the two's-complement value [v], least significant
    first (the byte order of [DataView] with [littleEndian = true], and of
    typed arrays on a little-endian platform). *)
Fixpoint le_bytes (n : nat) (v : Z) : bytes :=
  match n with
  | O => []
  | S n' => Sha256.byte_of_Z v :: le_bytes n' (Z.shiftr v 8)
  end.

(** A [DataView] write of [bs] at byte offset [off]. *)
Definition dv_set (buf : bytes) (off : nat) (bs : bytes) : bytes :=
  take off buf ++ bs ++ drop (off + length bs) buf.

Definition setUint8 (buf : bytes) (off : nat) (v : Z) : bytes :=
  dv_set buf off (le_bytes 1 (ToUint8 v)).
Definition setUint16LE (buf : bytes) (off : nat) (v : Z) : bytes :=
  dv_set buf off (le_bytes 2 (ToUint16 v)).
Definition setUint32LE (buf : bytes) (off : nat) (v : Z) : bytes :=
  dv_set buf off (le_bytes 4 (ToUint32 v)).
Definition setInt16LE (buf : bytes) (off : nat) (v : Z) : bytes :=
  dv_set buf off (le_bytes 2 (ToInt16 v)).

(** [new ArrayBuffer(n)]: [n] zero bytes. *)
Definition ArrayBuffer (n : nat) : bytes := repeat Byte.x00 n.

(** The data-channel label and payload of each [send...] method. *)

(** [sendMouseMove]: [new Int16Array([dx, dy]).buffer] *)
Definition sendMouseMove (dx dy : Z) : string * bytes :=
  ("mouse_relative", le_bytes 2 (ToInt16 dx) ++ le_bytes 2 (ToInt16 dy)).

(** [sendMouseButton]: [new Uint8Array([button, action]).buffer] *)
Definition sendMouseButton (button action : Z) : string * bytes :=
  ("mouse_button", le_bytes 1 (ToUint8 button) ++ le_bytes 1 (ToUint8 action)).

(** [sendMouseScroll]: [new Int16Array([amount]).buffer] *)
Definition sendMouseScroll (amount : Z) : string * bytes :=
  ("mouse_scroll", le_bytes 2 (ToInt16 amount)).

(** [sendKeyboard] *)
Definition sendKeyboard (keyCode action modifiers : Z) : string * bytes :=
  let data := ArrayBuffer 4 in
  let data := setUint16LE data 0 keyCode in
  let data := setUint8 data 2 action in
  let data := setUint8 data 3 modifiers in
  ("keyboard", data).

(** [sendController] *)
Definition sendController (controllerNum buttons lt rt lsx lsy rsx rsy : Z)
    : string * bytes :=
  let data := ArrayBuffer 15 in
  let data := setUint8 data 0 controllerNum in
  let data := setUint32LE data 1 buttons in
  let data := setUint8 data 5 lt in
  let data := setUint8 data 6 rt in
  let data := setInt16LE data 7 lsx in
  let data := setInt16LE data 9 lsy in
  let data := setInt16LE data 11 rsx in
  let data := setInt16LE data 13 rsy in
  ("controllers", data).

End Browser.

(* ===================================================================== *)
(** ** pkg/sunshine/pair.go step 4 and the client UUID *)
(* ===================================================================== *)

Module PairSteps.

Import Sha256 Pair.

(** [pairStep4]: the client pairing secret
    [append(Signature, sha256(salt ‖ Signature))]. *)
Definition clientPairingSecret (salt signature : bytes) : bytes :=
  signature ++ sha256 (salt ++ signature).

End PairSteps.

Module Uuid.

Import Sha256 Stdlib.Strings.Ascii.

(** One lowercase hexadecimal digit of [fmt]'s [%x] verb. *)
Definition hex_char (d : Z) : Ascii.ascii :=
  match String.get (Z.to_nat d) "0123456789abcdef" with
  | Some c => c
  | None => "0"%char
  end.

(** [fmt.Sprintf("%x", b)] for a byte slice: two digits per byte. *)
Definition hex_lower (b : list Byte.byte) : string :=
  foldr (fun x acc =>
           let v := Z_of_byte x in
           String (hex_char (Z.shiftr v 4)) (String (hex_char (Z.land v 15)) acc))
        EmptyString b.

(** The Go slice expression [b[lo:hi]]. *)
Definition go_slice (b : list Byte.byte) (lo hi : nat) : list Byte.byte :=
  firstn (hi - lo) (skipn lo b).

(** [generateUUID()]; [now i] is the [time.Now().UnixNano()] value (an
    int64) read in iteration [i] of the loop, and [>>] on int64 is the
    arithmetic shift. *)
Definition generateUUID (now : nat -> Z) : string :=
  let b := map (fun i => byte_of_Z (Z.shiftr (now i) (Z.of_nat (i * 8)))) (seq 0 16) in
  let b := <[6 := byte_of_Z (Z.lor (Z.land (Z_of_byte (nth 6 b Byte.x00)) 0x0f) 0x40)]> b in
  let b := <[8 := byte_of_Z (Z.lor (Z.land (Z_of_byte (nth 8 b Byte.x00)) 0x3f) 0x80)]> b in
  (hex_lower (go_slice b 0 4) ++ "-" ++ hex_lower (go_slice b 4 6) ++ "-" ++
   hex_lower (go_slice b 6 8) ++ "-" ++ hex_lower (go_slice b 8 10) ++ "-" ++
   hex_lower (skipn 10 b))%string.

End Uuid.

(* ===================================================================== *)
(** ** Concrete session traces used by the examples below *)
(* ===================================================================== *)

Module Scenarios.

Import Session.

(** The first client joins. *)
Definition s_host : Session := run empty_session [OpJoin "a" "A"].

(** A spectator takes slot 2, then the host leaves and it is promoted. *)
Definition s_two : Session := run empty_session [OpJoin "a" "A"; OpJoin "b" "B"].
Definition s_promoted : Session :=
  run s_two [OpJoinAsPlayer "b"; OpLeave "a" ["b"]].

(** The host revokes its own keyboard permission. *)
Definition s_self_revoke : Session :=
  run empty_session [OpJoin "a" "A"; OpSetKeyboard "a" "a" false].

(** Four players and one spectator ["e"]. *)
Definition s_full : Session :=
  run empty_session [OpJoin "a" "A"; OpJoin "b" "B"; OpJoin "c" "C";
                     OpJoin "d" "D"; OpJoin "e" "E";
                     OpJoinAsPlayer "b"; OpJoinAsPlayer "c"; OpJoinAsPlayer "d"].

(** A second player whose id is the empty string. *)
Definition s_empty_id : Session :=
  run empty_session [OpJoin "a" "A"; OpJoin "" "X"; OpJoinAsPlayer ""].

End Scenarios.

Module ExtraScenarios.

Import Session Input Server.

(** The host of [s_host] and of [s_full]. *)
Definition p_a : Participant := mkParticipant "a" "A" RolePlayer 1 true true true.

(** The session the server holds after the first client connects. *)
Definition srv_session : Session := fst (Join empty_session "a" "Player").
Definition p_srv : Participant := mkParticipant "a" "Player" RolePlayer 1 true true true.

(** A 15-byte controller frame of 0x01 bytes and the event forwarded for
    it from the player in slot 1. *)
Definition ctrl_frame : bytes := repeat Byte.x01 15.
Definition ctrl_event : ControllerEvent :=
  {| ControllerNumber := 0; Buttons := 16843009; LeftTrigger := 1; RightTrigger := 1;
     LeftStickX := 257; LeftStickY := 257; RightStickX := 257; RightStickY := 257 |}.

End ExtraScenarios.

(* ===================================================================== *)
(** * Properties of the session manager *)
(* ===================================================================== *)

Module SessionFacts.

Import Session.

(** ** Helper lemmas *)

Lemma first_free_S (sl : list (option string)) (i f : nat) :
  first_free sl i (S f) =
  match sl !! i with Some None => i | _ => first_free sl (S i) f end.
Proof. reflexivity. Qed.

Lemma first_free_range (sl : list (option string)) (i fuel : nat) :
  first_free sl i fuel = 0 \/ (i <= first_free sl i fuel < i + fuel)%nat.
Proof.
  revert i; induction fuel as [|f IH]; intros i; [left; reflexivity|].
  rewrite first_free_S; destruct (sl !! i) as [[q|]|] eqn:E.
  - destruct (IH (S i)) as [H|H]; [left; exact H | right; lia].
  - right; lia.
  - destruct (IH (S i)) as [H|H]; [left; exact H | right; lia].
Qed.

Lemma find_slot_range (sl : list (option string)) :
  find_slot sl = 0 \/ (1 <= find_slot sl <= 4)%nat.
Proof.
  unfold find_slot; destruct (first_free_range sl Slot1 4) as [H|H];
    [left; exact H | right; unfold Slot1 in *; lia].
Qed.

(** [first_free] returns the first free index. *)
Lemma first_free_first (sl : list (option string)) (i fuel k : nat) :
  (i <= k < i + fuel)%nat ->
  sl !! k = Some None ->
  (forall j, (i <= j < k)%nat -> sl !! j <> Some None) ->
  first_free sl i fuel = k.
Proof.
  revert i; induction fuel as [|f IH]; intros i Hk Hfree Hbefore; [lia|].
  rewrite first_free_S. destruct (decide (i = k)) as [->|Hne].
  - rewrite Hfree; reflexivity.
  - assert (Hi : sl !! i <> Some None) by (apply Hbefore; lia).
    destruct (sl !! i) as [[q|]|] eqn:E;
      [| congruence |];
      (apply IH; [lia | exact Hfree | intros j Hj; apply Hbefore; lia]).
Qed.

(** [first_free] finds nothing when every visited entry is occupied. *)
Lemma first_free_full (sl : list (option string)) (i fuel : nat) :
  (forall j, (i <= j < i + fuel)%nat -> exists q, sl !! j = Some (Some q)) ->
  first_free sl i fuel = 0.
Proof.
  revert i; induction fuel as [|f IH]; intros i Hfull; [reflexivity|].
  rewrite first_free_S; destruct (Hfull i ltac:(lia)) as [q ->].
  apply IH; intros j Hj; apply Hfull; lia.
Qed.

(** The promotion loop either finds no player or promotes one. *)
Lemma promote_cases (ps : gmap string Participant) (order : list string) :
  promote ps order = (ps, "") \/
  exists k q, ps !! k = Some q /\ PRole q = RolePlayer /\ In k order /\
              promote ps order = (<[k := make_host q]> ps, ID q).
Proof.
  induction order as [|k ks IH]; simpl; [left; reflexivity|].
  destruct (ps !! k) as [q|] eqn:E.
  - destruct (decide (PRole q = RolePlayer)) as [Hp|Hp].
    + right; exists k, q; auto.
    + destruct IH as [IH|(k' & q' & H1 & H2 & H3 & H4)]; [left; exact IH|].
      right; exists k', q'; auto.
  - destruct IH as [IH|(k' & q' & H1 & H2 & H3 & H4)]; [left; exact IH|].
    right; exists k', q'; auto.
Qed.

(** If a player is among the visited keys, the loop promotes someone. *)
Lemma promote_finds (ps : gmap string Participant) (order : list string) k q :
  ps !! k = Some q -> PRole q = RolePlayer -> In k order ->
  exists k' q', ps !! k' = Some q' /\ PRole q' = RolePlayer /\
                promote ps order = (<[k' := make_host q']> ps, ID q').
Proof.
  intros Hk Hq; induction order as [|k0 ks IH]; intros Hin; [destruct Hin|].
  simpl. destruct (ps !! k0) as [q0|] eqn:E.
  - destruct (decide (PRole q0 = RolePlayer)) as [Hp|Hp].
    + exists k0, q0; auto.
    + destruct Hin as [<-|Hin]; [congruence | apply IH; exact Hin].
  - destruct Hin as [<-|Hin]; [congruence | apply IH; exact Hin].
Qed.

(** If no visited key holds a player, nobody is promoted. *)
Lemma promote_none (ps : gmap string Participant) (order : list string) :
  (forall k q, In k order -> ps !! k = Some q -> PRole q <> RolePlayer) ->
  promote ps order = (ps, "").
Proof.
  induction order as [|k ks IH]; intros H; simpl; [reflexivity|].
  destruct (ps !! k) as [q|] eqn:E.
  - destruct (decide (PRole q = RolePlayer)) as [Hp|Hp].
    + exfalso; exact (H k q (or_introl eq_refl) E Hp).
    + apply IH; intros k' q' Hin; apply H; right; exact Hin.
  - apply IH; intros k' q' Hin; apply H; right; exact Hin.
Qed.

Lemma reachable_run (s : Session) (os : list op) :
  reachable s -> reachable (run s os).
Proof.
  revert s; induction os as [|o os IH]; intros s Hs; simpl; [exact Hs|].
  apply IH, reach_step, Hs.
Qed.

(** The role/slot invariant of hosts and players. *)
Definition role_inv (s : Session) : Prop :=
  forall k p, participants s !! k = Some p ->
    (PRole p = RolePlayer -> (1 <= Slot p <= 4)%nat) /\
    (IsHost p = true -> PRole p = RolePlayer).

Lemma role_inv_empty : role_inv empty_session.
Proof. intros k p H; simpl in H; rewrite lookup_empty in H; discriminate. Qed.

Ltac lookup_cases H :=
  repeat match type of H with
  | <[_ := _]> _ !! _ = Some _ =>
      apply lookup_insert_Some in H; destruct H as [[<- <-]|[_ H]]
  | delete _ _ !! _ = Some _ =>
      apply lookup_delete_Some in H; destruct H as [_ H]
  end.

Lemma role_inv_step (s : Session) (o : op) :
  role_inv s -> role_inv (step s o).
Proof.
  intros Hinv; destruct o as [id name|id order|id|id|h t b|h t b]; simpl.
  - (* Join *)
    unfold Join; destruct (participants s !! id) as [p0|] eqn:E; [exact Hinv|].
    intros k p Hk; simpl in Hk; lookup_cases Hk; [|exact (Hinv _ _ Hk)].
    simpl; destruct (Nat.eqb (size (participants s)) 0);
      simpl; split; intros; unfold Slot1, SlotNone in *; try lia; congruence.
  - (* Leave *)
    unfold Leave; destruct (participants s !! id) as [p0|] eqn:E; [|exact Hinv].
    destruct (IsHost p0).
    + destruct (promote_cases (delete id (participants s)) order)
        as [Hp|(k' & q' & Hq1 & Hq2 & _ & Hp)]; rewrite Hp; simpl;
        intros k p Hk; simpl in Hk; lookup_cases Hk; try exact (Hinv _ _ Hk).
      apply lookup_delete_Some in Hq1; destruct Hq1 as [_ Hq1].
      destruct (Hinv _ _ Hq1) as [H1 _]; simpl; split; auto.
    + intros k p Hk; simpl in Hk; lookup_cases Hk; exact (Hinv _ _ Hk).
  - (* JoinAsPlayer *)
    unfold JoinAsPlayer; destruct (participants s !! id) as [p0|] eqn:E;
      [|exact Hinv].
    destruct (decide (PRole p0 = RolePlayer)); [exact Hinv|].
    destruct (Nat.eqb (find_slot (slots s)) SlotNone) eqn:Es; [exact Hinv|].
    intros k p Hk; simpl in Hk; lookup_cases Hk; [|exact (Hinv _ _ Hk)].
    apply Nat.eqb_neq in Es; unfold SlotNone in Es.
    destruct (find_slot_range (slots s)) as [Hr|Hr]; [contradiction|].
    simpl; split; [intros _; exact Hr | intros _; reflexivity].
  - (* Spectate *)
    unfold Spectate; destruct (participants s !! id) as [p0|] eqn:E;
      [|exact Hinv].
    destruct (negb (bool_decide (PRole p0 = RolePlayer))); [exact Hinv|].
    destruct (IsHost p0) eqn:Eh; [exact Hinv|].
    intros k p Hk; simpl in Hk; lookup_cases Hk; [|exact (Hinv _ _ Hk)].
    simpl; split; intros H; [discriminate | congruence].
  - (* SetKeyboardPermission *)
    unfold SetKeyboardPermission; destruct (negb (String.eqb (hostID s) h));
      [exact Hinv|].
    destruct (participants s !! t) as [p0|] eqn:E; [|exact Hinv].
    intros k p Hk; simpl in Hk; lookup_cases Hk; [|exact (Hinv _ _ Hk)].
    exact (Hinv _ _ E).
  - (* SetMousePermission *)
    unfold SetMousePermission; destruct (negb (String.eqb (hostID s) h));
      [exact Hinv|].
    destruct (participants s !! t) as [p0|] eqn:E; [|exact Hinv].
    intros k p Hk; simpl in Hk; lookup_cases Hk; [|exact (Hinv _ _ Hk)].
    exact (Hinv _ _ E).
Qed.

Lemma reachable_role_inv (s : Session) : reachable s -> role_inv s.
Proof.
  induction 1; [exact role_inv_empty | apply role_inv_step; assumption].
Qed.

(** A property of every entry of a concrete map, checked on its list of
    entries. *)
Lemma map_forall_lookup (m : gmap string Participant)
    (P : string -> Participant -> Prop) :
  Forall (fun kv => P kv.1 kv.2) (map_to_list m) ->
  forall k q, m !! k = Some q -> P k q.
Proof.
  intros HF k q Hk. apply elem_of_map_to_list in Hk.
  exact (proj1 (Forall_forall _ _) HF _ Hk).
Qed.

Ltac check_entries :=
  repeat (apply List.Forall_cons;
          [ simpl; first [ intros Hc; exfalso; apply Hc; reflexivity
                         | intros _; left; reflexivity
                         | intros Hc; discriminate Hc ] | ]);
  apply List.Forall_nil.

(** ** Claims *)

Import Scenarios.

(** Claim C1 (as corrected): in every reachable session state a
    participant with [IsHost] is a [RolePlayer] whose [Slot] is one of
    1..4.  (A host created by [Join] has slot 1; a host promoted by
    [Leave] keeps its own slot.) *)
Theorem host_role_slot_invariant (s : Session) (k : string) (p : Participant) :
  reachable s -> participants s !! k = Some p -> IsHost p = true ->
  PRole p = RolePlayer /\ (1 <= Slot p <= 4)%nat.
Proof.
  intros Hr Hk Hh.
  destruct (reachable_role_inv s Hr k p Hk) as [Hslot Hrole].
  pose proof (Hrole Hh) as Hp; split; [exact Hp | exact (Hslot Hp)].
Qed.

Lemma host_role_slot_invariant_witness :
  participants s_promoted !! "b" = Some (mkParticipant "b" "B" RolePlayer 2 true true true) /\
  PRole (mkParticipant "b" "B" RolePlayer 2 true true true) = RolePlayer /\
  (1 <= Slot (mkParticipant "b" "B" RolePlayer 2 true true true) <= 4)%nat.
Proof.
  split; [reflexivity|].
  apply (host_role_slot_invariant s_promoted "b"
           (mkParticipant "b" "B" RolePlayer 2 true true true));
    [apply reachable_run, reachable_run, reach_init | reflexivity | reflexivity].
Defined.

(** Claim C1 as stated fails: after [Join "a"] and the host's own
    [SetKeyboardPermission "a" "a" false], the host has
    [CanKeyboard = false]. *)
Lemma host_invariant_counterexample :
  ~ (forall s k p, reachable s -> participants s !! k = Some p -> IsHost p = true ->
       PRole p = RolePlayer /\ Slot p = 1%nat /\ CanKeyboard p = true /\
       CanMouse p = true).
Proof.
  intros H.
  destruct (H s_self_revoke "a" (mkParticipant "a" "A" RolePlayer 1 true false true))
    as (_ & _ & Hk & _);
    [apply reachable_run, reach_init | reflexivity | reflexivity | discriminate].
Qed.

(** Claim C2 (as corrected): the current host's permission setters
    accept the host itself as target: [SetKeyboardPermission h h b]
    succeeds and sets the host's [CanKeyboard] to [b], and
    [SetMousePermission h h b] sets its [CanMouse] to [b]; the target
    stays host. *)
Theorem host_self_permission (s : Session) (h : string) (p : Participant) (b : bool) :
  hostID s = h -> participants s !! h = Some p ->
  (snd (SetKeyboardPermission s h h b) = None /\
   hostID (fst (SetKeyboardPermission s h h b)) = h /\
   exists q, participants (fst (SetKeyboardPermission s h h b)) !! h = Some q /\
     IsHost q = IsHost p /\ CanKeyboard q = b /\ CanMouse q = CanMouse p) /\
  (snd (SetMousePermission s h h b) = None /\
   hostID (fst (SetMousePermission s h h b)) = h /\
   exists q, participants (fst (SetMousePermission s h h b)) !! h = Some q /\
     IsHost q = IsHost p /\ CanMouse q = b /\ CanKeyboard q = CanKeyboard p).
Proof.
  intros <- Hp.
  unfold SetKeyboardPermission, SetMousePermission.
  rewrite String.eqb_refl, Hp; simpl.
  split; (split; [reflexivity | split; [reflexivity|]]);
    eexists; (split; [apply lookup_insert_eq|]); simpl; auto.
Qed.

Lemma host_self_permission_witness :
  (snd (SetKeyboardPermission s_host "a" "a" false) = None /\
   hostID (fst (SetKeyboardPermission s_host "a" "a" false)) = "a" /\
   exists q, participants (fst (SetKeyboardPermission s_host "a" "a" false)) !! "a" = Some q /\
     IsHost q = true /\ CanKeyboard q = false /\ CanMouse q = true) /\
  (snd (SetMousePermission s_host "a" "a" false) = None /\
   hostID (fst (SetMousePermission s_host "a" "a" false)) = "a" /\
   exists q, participants (fst (SetMousePermission s_host "a" "a" false)) !! "a" = Some q /\
     IsHost q = true /\ CanMouse q = false /\ CanKeyboard q = true).
Proof.
  exact (host_self_permission s_host "a"
           (mkParticipant "a" "A" RolePlayer 1 true true true) false
           eq_refl eq_refl).
Defined.

(** Claim C2 as stated fails: the host's own keyboard permission can be
    revoked while it stays host. *)
Lemma host_permission_counterexample :
  ~ (forall s h p, reachable s -> hostID s = h -> participants s !! h = Some p ->
       IsHost p = true ->
       forall q, participants (fst (SetKeyboardPermission s h h false)) !! h = Some q ->
         IsHost q = true -> CanKeyboard q = true).
Proof.
  intros H.
  assert (Hc : CanKeyboard (mkParticipant "a" "A" RolePlayer 1 true false true) = true).
  { apply (H s_host "a" (mkParticipant "a" "A" RolePlayer 1 true true true));
      [apply reachable_run, reach_init | reflexivity | reflexivity | reflexivity
      | reflexivity | reflexivity]. }
  discriminate Hc.
Qed.

(** Claim C7: [JoinAsPlayer id] on a present participant [p]: a player
    gets [ErrAlreadyPlayer]; a spectator gets [ErrNoSlotAvailable] with
    the state unchanged when slots 1..4 are all occupied, and otherwise
    the lowest free slot [k], with its permissions left as they were. *)
Theorem join_as_player_spec (s : Session) (id : string) (p : Participant) :
  participants s !! id = Some p ->
  (PRole p = RolePlayer -> JoinAsPlayer s id = (s, Some ErrAlreadyPlayer)) /\
  (PRole p = RoleSpectator ->
     (forall i, (1 <= i <= 4)%nat -> exists q, slots s !! i = Some (Some q)) ->
     JoinAsPlayer s id = (s, Some ErrNoSlotAvailable)) /\
  (PRole p = RoleSpectator ->
     forall k, (1 <= k <= 4)%nat -> slots s !! k = Some None ->
     (forall j, (1 <= j < k)%nat -> slots s !! j <> Some None) ->
     exists s', JoinAsPlayer s id = (s', None) /\
       participants s' !! id =
         Some (mkParticipant (ID p) (Name p) RolePlayer k (IsHost p)
                             (CanKeyboard p) (CanMouse p)) /\
       (forall j, j <> id -> participants s' !! j = participants s !! j) /\
       slots s' = <[k := Some id]> (slots s) /\
       hostID s' = hostID s).
Proof.
  intros Hp; unfold JoinAsPlayer; rewrite Hp.
  split; [|split].
  - intros Hr; destruct (decide (PRole p = RolePlayer)); [reflexivity | contradiction].
  - intros Hr Hfull; destruct (decide (PRole p = RolePlayer)) as [E|_];
      [rewrite Hr in E; discriminate|].
    unfold find_slot; rewrite (first_free_full (slots s) Slot1 4);
      [reflexivity | intros j Hj; apply Hfull; unfold Slot1 in Hj; lia].
  - intros Hr k Hk Hfree Hbefore.
    destruct (decide (PRole p = RolePlayer)) as [E|_]; [rewrite Hr in E; discriminate|].
    assert (Hs : find_slot (slots s) = k).
    { apply first_free_first; unfold Slot1; [lia | exact Hfree | exact Hbefore]. }
    rewrite Hs. destruct (Nat.eqb k SlotNone) eqn:Ek;
      [apply Nat.eqb_eq in Ek; unfold SlotNone in Ek; lia|].
    eexists; split; [reflexivity|]; simpl.
    split; [apply lookup_insert_eq|].
    split; [intros j Hj; apply lookup_insert_ne; congruence|].
    split; reflexivity.
Qed.

Lemma join_as_player_spec_witness :
  JoinAsPlayer s_full "e" = (s_full, Some ErrNoSlotAvailable) /\
  (exists s', JoinAsPlayer s_two "b" = (s', None) /\
     participants s' !! "b" = Some (mkParticipant "b" "B" RolePlayer 2 false false false) /\
     (forall j, j <> "b" -> participants s' !! j = participants s_two !! j) /\
     slots s' = <[2%nat := Some "b"]> (slots s_two) /\ hostID s' = hostID s_two).
Proof.
  split.
  - destruct (join_as_player_spec s_full "e"
                (mkParticipant "e" "E" RoleSpectator 0 false false false) eq_refl)
      as (_ & H2 & _).
    apply H2; [reflexivity|].
    intros i Hi; destruct i as [|[|[|[|[|i]]]]]; try lia; eexists; reflexivity.
  - destruct (join_as_player_spec s_two "b"
                (mkParticipant "b" "B" RoleSpectator 0 false false false) eq_refl)
      as (_ & _ & H3).
    apply (H3 eq_refl 2%nat); [lia | reflexivity |].
    intros j Hj; destruct j as [|[|j]]; [lia | discriminate | lia].
Defined.

(** Claim C8 (as corrected): [Leave id] on a present participant [p]
    returns [p], removes it and clears its slot; if [p] was host and a
    player remains, one remaining player becomes host with both
    permissions; [sessionEnded] holds iff [p] was host and no player
    remained.  This needs every participant id to be non-empty (the
    server's ids are UUIDs) and [order], the map iteration order, to
    visit every remaining key. *)
Theorem leave_spec (s : Session) (id : string) (p : Participant) (order : list string) :
  participants s !! id = Some p ->
  (forall k q, participants s !! k = Some q -> k <> id -> In k order) ->
  (forall k q, participants s !! k = Some q -> ID q <> "") ->
  let s' := fst (fst (Leave s id order)) in
  snd (fst (Leave s id order)) = Some p /\
  participants s' !! id = None /\
  slots s' = (if Nat.eqb (Slot p) SlotNone then slots s
              else <[Slot p := None]> (slots s)) /\
  (IsHost p = true ->
     (exists k q, k <> id /\ participants s !! k = Some q /\ PRole q = RolePlayer) ->
     exists k q, k <> id /\ participants s !! k = Some q /\ PRole q = RolePlayer /\
       participants s' !! k = Some (make_host q) /\ hostID s' = ID q) /\
  (snd (Leave s id order) = true <->
     IsHost p = true /\
     ~ (exists k q, k <> id /\ participants s !! k = Some q /\ PRole q = RolePlayer)).
Proof.
  intros Hp Horder Hids s'; subst s'; unfold Leave; rewrite Hp.
  destruct (IsHost p) eqn:Eh.
  - destruct (promote_cases (delete id (participants s)) order)
      as [Hpr|(k' & q' & Hq1 & Hq2 & Hin & Hpr)]; rewrite Hpr; simpl.
    + (* no player was found *)
      assert (Hno : ~ exists k q, k <> id /\ participants s !! k = Some q /\
                                  PRole q = RolePlayer).
      { intros (k & q & Hne & Hk & Hq).
        assert (Hd : delete id (participants s) !! k = Some q)
          by (rewrite lookup_delete_ne; [exact Hk | congruence]).
        destruct (promote_finds _ order k q Hd Hq (Horder k q Hk Hne))
          as (k2 & q2 & Hk2 & _ & Hpr2).
        rewrite Hpr in Hpr2. injection Hpr2 as _ He.
        apply lookup_delete_Some in Hk2; destruct Hk2 as [_ Hk2].
        exact (Hids _ _ Hk2 (eq_sym He)). }
      split; [reflexivity|]. split; [apply lookup_delete_eq|].
      split; [reflexivity|]. split.
      * intros _ Hex; contradiction.
      * split; [intros _; split; [reflexivity | exact Hno] | intros _; reflexivity].
    + (* [q'] under key [k'] was promoted *)
      apply lookup_delete_Some in Hq1; destruct Hq1 as [Hne Hq1].
      assert (Hk' : k' <> id) by congruence.
      split; [reflexivity|].
      split; [rewrite lookup_insert_ne by exact Hk'; apply lookup_delete_eq|].
      split; [reflexivity|]. split.
      * intros _ _; exists k', q'; repeat split; auto; apply lookup_insert_eq.
      * split.
        -- intros Hend; apply String.eqb_eq in Hend; exfalso; exact (Hids _ _ Hq1 Hend).
        -- intros [_ Hno]; exfalso; apply Hno; exists k', q'; auto.
  - simpl. split; [reflexivity|]. split; [apply lookup_delete_eq|].
    split; [reflexivity|]. split.
    + intros Hf; discriminate Hf.
    + split; [intros Hf; discriminate Hf | intros [Hf _]; discriminate Hf].
Qed.

Lemma leave_spec_witness :
  snd (Leave (run s_two [OpJoinAsPlayer "b"]) "a" ["b"]) = false /\
  participants s_promoted !! "b" =
    Some (make_host (mkParticipant "b" "B" RolePlayer 2 false false false)).
Proof.
  destruct (leave_spec (run s_two [OpJoinAsPlayer "b"]) "a"
              (mkParticipant "a" "A" RolePlayer 1 true true true) ["b"])
    as (_ & _ & _ & Hhost & Hend).
  - reflexivity.
  - apply (map_forall_lookup _ (fun k _ => k <> "a" -> In k ["b"]));
      vm_compute; check_entries.
  - apply (map_forall_lookup _ (fun _ q => ID q <> ""));
      vm_compute; check_entries.
  - split.
    + destruct (snd (Leave (run s_two [OpJoinAsPlayer "b"]) "a" ["b"])) eqn:E;
        [|reflexivity].
      destruct (proj1 Hend eq_refl) as [_ Hno]; exfalso; apply Hno.
      exists "b", (mkParticipant "b" "B" RolePlayer 2 false false false).
      split; [discriminate | split; reflexivity].
    + reflexivity.
Defined.

(** Claim C8 as stated fails when the promoted player's id is empty:
    [Leave "a"] promotes the player [""] and still reports
    [sessionEnded]. *)
Lemma leave_empty_id_counterexample :
  ~ (forall s id p order, reachable s -> participants s !! id = Some p ->
       (forall k q, participants s !! k = Some q -> k <> id -> In k order) ->
       (snd (Leave s id order) = true <->
        IsHost p = true /\
        ~ (exists k q, k <> id /\ participants s !! k = Some q /\ PRole q = RolePlayer))).
Proof.
  intros H.
  destruct (H s_empty_id "a" (mkParticipant "a" "A" RolePlayer 1 true true true) [""])
    as [H1 _].
  - apply reachable_run, reach_init.
  - reflexivity.
  - apply (map_forall_lookup _ (fun k _ => k <> "a" -> In k [""]));
      vm_compute; check_entries.
  - destruct (H1 eq_refl) as [_ Hno]. apply Hno.
    exists "", (mkParticipant "" "X" RolePlayer 2 false false false).
    split; [discriminate | split; reflexivity].
Qed.

End SessionFacts.

(* ===================================================================== *)
(** * Properties of the input parsers *)
(* ===================================================================== *)

Module InputFacts.

Import Input.

(** Every parser answers [Parsed None] below its length check. *)
Lemma short_frames_rejected (data : bytes) :
  ((length data < 4)%nat -> ParseMouseMoveData data = Parsed None) /\
  ((length data < 8)%nat -> ParseMousePositionData data = Parsed None) /\
  ((length data < 2)%nat -> ParseMouseButtonData data = Parsed None) /\
  ((length data < 2)%nat -> ParseMouseScrollData data = Parsed None) /\
  ((length data < 4)%nat -> ParseKeyboardData data = Parsed None) /\
  ((length data < 13)%nat -> ParseControllerData data = Parsed None).
Proof.
  unfold ParseMouseMoveData, ParseMousePositionData, ParseMouseButtonData,
    ParseMouseScrollData, ParseKeyboardData, ParseControllerData.
  repeat split; intros H; apply Nat.ltb_lt in H; rewrite H; reflexivity.
Qed.

Tactic Notation "in_bounds" int_or_var(n) constr(parser) ident(data) :=
  do n (destruct data as [|? data]; [unfold parser; simpl; discriminate|]);
  unfold parser; simpl; discriminate.

(** The mouse and keyboard parsers never index past the end of their
    argument; the controller parser does not either once it has 15 bytes. *)
Lemma parsers_in_bounds (data : bytes) :
  ParseMouseMoveData data <> OutOfRange /\
  ParseMousePositionData data <> OutOfRange /\
  ParseMouseButtonData data <> OutOfRange /\
  ParseMouseScrollData data <> OutOfRange /\
  ParseKeyboardData data <> OutOfRange /\
  ((15 <= length data)%nat -> ParseControllerData data <> OutOfRange).
Proof.
  split; [in_bounds 4 ParseMouseMoveData data|].
  split; [in_bounds 8 ParseMousePositionData data|].
  split; [in_bounds 2 ParseMouseButtonData data|].
  split; [in_bounds 2 ParseMouseScrollData data|].
  split; [in_bounds 4 ParseKeyboardData data|].
  intros H; do 15 (destruct data as [|? data]; [simpl in H; lia|]).
  unfold ParseControllerData; simpl; discriminate.
Qed.

(** Claim C3 (code defect): [ParseControllerData] checks
    [len(data) < 13] but slices [data[13:15]]; on 13- or 14-byte frames
    that slice is past the end of the argument. *)
Theorem controller_short_frame_out_of_range (data : bytes) :
  (length data = 13 \/ length data = 14)%nat ->
  ParseControllerData data = OutOfRange.
Proof.
  intros H.
  do 13 (destruct data as [|? data]; [simpl in H; lia|]).
  destruct data as [|? data]; [reflexivity|].
  destruct data as [|? data]; [reflexivity|].
  simpl in H; lia.
Qed.

Lemma controller_short_frame_out_of_range_witness :
  ParseControllerData (repeat Byte.x00 13) = OutOfRange.
Proof.
  apply controller_short_frame_out_of_range; left; reflexivity.
Defined.

End InputFacts.

(* ===================================================================== *)
(** * Properties of the pairing helpers *)
(* ===================================================================== *)

Module PairFacts.

Import Sha256 Pair.

(** ** Bytes as 8-bit integers *)

Lemma land_255_mod (z : Z) : Z.land z 255 = (z mod 256)%Z.
Proof. change 255%Z with (Z.ones 8). rewrite Z.land_ones by lia. reflexivity. Qed.

Lemma land_255_range (z : Z) : (0 <= Z.land z 255 <= 255)%Z.
Proof.
  rewrite land_255_mod. pose proof (Z.mod_pos_bound z 256 ltac:(lia)). lia.
Qed.

Lemma land_255_small (z : Z) : (0 <= z <= 255)%Z -> Z.land z 255 = z.
Proof. intros H. rewrite land_255_mod. apply Z.mod_small; lia. Qed.

Lemma land_lxor_255 (a c : Z) :
  Z.land (Z.lxor a c) 255 = Z.lxor (Z.land a 255) (Z.land c 255).
Proof.
  apply Z.bits_inj'; intros n Hn.
  rewrite Z.land_spec, !Z.lxor_spec, !Z.land_spec.
  destruct (Z.testbit a n), (Z.testbit c n), (Z.testbit 255 n); reflexivity.
Qed.

Lemma Z_of_byte_range (b : Byte.byte) : (0 <= Z_of_byte b <= 255)%Z.
Proof.
  unfold Z_of_byte. pose proof (Byte.to_N_bounded b). lia.
Qed.

Lemma Z_of_byte_of_Z (z : Z) : Z_of_byte (byte_of_Z z) = Z.land z 255.
Proof.
  unfold byte_of_Z. pose proof (land_255_range z) as Hr.
  destruct (Byte.of_N (Z.to_N (Z.land z 255))) as [b|] eqn:E.
  - apply Byte.to_of_N in E. unfold Z_of_byte. rewrite E. lia.
  - apply Byte.of_N_None_iff in E. lia.
Qed.

Lemma byte_of_Z_of_byte (b : Byte.byte) : byte_of_Z (Z_of_byte b) = b.
Proof.
  unfold byte_of_Z. rewrite land_255_small by apply Z_of_byte_range.
  unfold Z_of_byte. rewrite N2Z.id. rewrite Byte.of_to_N. reflexivity.
Qed.

Lemma xor_byte_involutive (a c : Byte.byte) : xor_byte (xor_byte a c) c = a.
Proof.
  unfold xor_byte. rewrite Z_of_byte_of_Z.
  rewrite land_lxor_255, !land_255_small by apply Z_of_byte_range.
  rewrite Z.lxor_assoc, Z.lxor_nilpotent, Z.lxor_0_r.
  apply byte_of_Z_of_byte.
Qed.

Lemma xor_block_involutive (b iv : bytes) :
  length b = length iv -> xor_block (xor_block b iv) iv = b.
Proof.
  revert iv; induction b as [|x b IH]; intros [|y iv] H; simpl in *;
    try discriminate; [reflexivity|].
  unfold xor_block in *; simpl. rewrite xor_byte_involutive, IH by lia.
  reflexivity.
Qed.

Lemma length_xor_block (b iv : bytes) :
  length (xor_block b iv) = Nat.min (length b) (length iv).
Proof.
  revert iv; induction b as [|x b IH]; intros [|y iv]; simpl; try reflexivity.
  unfold xor_block in *; simpl; rewrite IH; reflexivity.
Qed.

Lemma length_sha256 (m : bytes) : length (sha256 m) = 32%nat.
Proof. unfold sha256. rewrite length_map. reflexivity. Qed.

Lemma rune_to_byte_ascii (c : rune) : (c < 0x80)%Z -> utf8_encode c = [rune_to_byte c].
Proof.
  intros Hc. unfold utf8_encode, rune_to_byte, byte_of_Z.
  replace (Z.ltb c 0x80) with true by (symmetry; apply Z.ltb_lt; exact Hc).
  simpl. rewrite <- Z.land_assoc. reflexivity.
Qed.

(** PINs made of ASCII runes (the usual decimal PINs) get the key the
    spec describes. *)
Lemma deriveAESKey_ascii (pin : list rune) (salt : bytes) :
  Forall (fun c => (c < 0x80)%Z) pin ->
  deriveAESKey pin salt = spec_pairing_key pin salt.
Proof.
  intros H. unfold deriveAESKey, spec_pairing_key. f_equal. f_equal. f_equal.
  induction H as [|c pin Hc _ IH]; [reflexivity|].
  simpl. rewrite rune_to_byte_ascii by exact Hc. simpl. f_equal. exact IH.
Qed.

(** Claim C5 (code defect): [deriveAESKey] writes [byte(c)] for each rune
    [c] instead of the rune's UTF-8 bytes.  For the PIN "é" (U+00E9,
    UTF-8 C3 A9) and an all-zero salt it hashes the single byte E9, and
    its key differs from SHA-256(salt ‖ C3 A9)[:16]. *)
Theorem deriveAESKey_non_ascii_pin :
  map rune_to_byte [0xE9%Z] = [Byte.xe9] /\
  flat_map utf8_encode [0xE9%Z] = [Byte.xc3; Byte.xa9] /\
  deriveAESKey [0xE9%Z] (repeat Byte.x00 16) <>
  spec_pairing_key [0xE9%Z] (repeat Byte.x00 16).
Proof.
  split; [reflexivity|]. split; [reflexivity|].
  intros H. vm_compute in H. discriminate H.
Qed.

(** ** verifyServerPairingSecret *)

Lemma hash_loop_spec (expected serverHash : bytes) :
  (length expected <= length serverHash)%nat ->
  exists b, hash_loop expected serverHash = Ok b /\
            (b = true <-> firstn (length expected) serverHash = expected).
Proof.
  revert serverHash; induction expected as [|x xs IH]; intros [|y ys] Hl;
    simpl in *; try lia.
  - exists true; split; [reflexivity | split; reflexivity].
  - exists true; split; [reflexivity | split; reflexivity].
  - destruct (Byte.eqb y x) eqn:E.
    + apply Byte.byte_dec_bl in E; subst y.
      destruct (IH ys ltac:(lia)) as (b & Hb & Hiff); exists b; split; [exact Hb|].
      rewrite Hiff; split; [intros ->; reflexivity | intros H; injection H; auto].
    + exists false; split; [reflexivity|]. split; [discriminate|].
      intros H; injection H as Hy _; subst y.
      rewrite (Byte.byte_dec_lb (x := x) eq_refl) in E; discriminate.
Qed.

(** Claim C4 (as corrected): the check accepts exactly when the secret
    has at least 256 + 32 bytes, the 32 bytes after the 256-byte
    signature equal SHA-256(salt ‖ signature), and the certificate key is
    an RSA key; the RSA signature check's outcome never matters. *)
Theorem verifyServerPairingSecret_spec
    (rsa_verify : PublicKey -> bytes -> bytes -> bool)
    (secret : bytes) (cert : Certificate) (salt : bytes) :
  verifyServerPairingSecret rsa_verify secret cert salt = Ok tt <->
  (288 <= length secret)%nat /\
  firstn 32 (skipn 256 secret) = sha256 (salt ++ firstn 256 secret) /\
  (exists n e, CertPublicKey cert = RSAPublicKey n e).
Proof.
  unfold verifyServerPairingSecret; cbv zeta.
  rewrite length_sha256, length_skipn.
  destruct (Nat.ltb (length secret) 256) eqn:E1.
  { apply Nat.ltb_lt in E1. split; [discriminate | intros (H & _); lia]. }
  apply Nat.ltb_ge in E1.
  destruct (Nat.ltb (length secret - 256) 32) eqn:E2.
  { apply Nat.ltb_lt in E2. split; [discriminate | intros (H & _); lia]. }
  apply Nat.ltb_ge in E2.
  destruct (hash_loop_spec (sha256 (salt ++ firstn 256 secret)) (skipn 256 secret))
    as (b & Hb & Hiff); [rewrite length_sha256, length_skipn; lia|].
  rewrite Hb. rewrite length_sha256 in Hiff.
  destruct b.
  - destruct (CertPublicKey cert) as [n e|] eqn:Ek.
    + destruct (rsa_verify _ _ _); split; intros _;
        (split; [lia | split; [apply Hiff; reflexivity | eauto]]) || reflexivity.
    + split; [discriminate | intros (_ & _ & n & e & H); discriminate H].
  - split; [discriminate|]. intros (_ & H & _). apply Hiff in H; discriminate H.
Qed.

(** Claim C4 as stated fails: a secret of exactly 256 + 32 bytes whose
    digest is right is still rejected when the certificate key is not
    an RSA key. *)
Lemma verify_non_rsa_counterexample :
  ~ (forall rsa_verify secret cert salt,
       verifyServerPairingSecret rsa_verify secret cert salt = Ok tt <->
       (288 <= length secret)%nat /\
       skipn (length secret - 32) secret = sha256 (salt ++ firstn 256 secret)).
Proof.
  intros H.
  destruct (H (fun _ _ _ => true)
              (repeat Byte.x00 256 ++ sha256 (repeat Byte.x00 16 ++ repeat Byte.x00 256))
              {| CertPublicKey := OtherPublicKey; RawTBSCertificate := [] |}
              (repeat Byte.x00 16)) as [_ H2].
  assert (Hv : verifyServerPairingSecret (fun _ _ _ => true)
                 (repeat Byte.x00 256 ++ sha256 (repeat Byte.x00 16 ++ repeat Byte.x00 256))
                 {| CertPublicKey := OtherPublicKey; RawTBSCertificate := [] |}
                 (repeat Byte.x00 16) = Ok tt).
  { apply H2. split.
    - rewrite length_app, length_sha256, repeat_length. lia.
    - vm_compute. reflexivity. }
  vm_compute in Hv. discriminate Hv.
Qed.

(** ** aesEncrypt / aesDecrypt *)

Lemma nth_repeat_lt (a d : Byte.byte) (n p : nat) :
  (n < p)%nat -> nth n (repeat a p) d = a.
Proof.
  revert n; induction p as [|p IH]; intros n Hn; [lia|].
  destruct n as [|n]; simpl; [reflexivity | apply IH; lia].
Qed.

Lemma length_concat_blocks (bs : list bytes) :
  Forall (fun b => length b = BlockSize) bs ->
  length (concat bs) = (BlockSize * length bs)%nat.
Proof.
  induction 1 as [|b bs Hb _ IH]; simpl; [reflexivity|].
  rewrite length_app, Hb, IH. unfold BlockSize. lia.
Qed.

Lemma chunks_S_nonnil (f : nat) (b : bytes) :
  b <> [] -> chunks (S f) b = take BlockSize b :: chunks f (drop BlockSize b).
Proof. destruct b; [congruence | reflexivity]. Qed.

(** Splitting a buffer whose length is a multiple of 16 gives 16-byte
    blocks that concatenate back to it. *)
Lemma chunks_split (fuel : nat) (b : bytes) :
  (length b <= fuel)%nat -> (length b mod BlockSize = 0)%nat ->
  concat (chunks fuel b) = b /\
  Forall (fun x => length x = BlockSize) (chunks fuel b).
Proof.
  revert b; induction fuel as [|f IH]; intros b Hl Hm.
  - destruct b; simpl in *; [split; [reflexivity | constructor] | lia].
  - destruct b as [|x b'] eqn:Eb; [split; [reflexivity | constructor]|].
    rewrite <- Eb in *. unfold BlockSize in *.
    assert (H16 : (16 <= length b)%nat).
    { destruct (Nat.lt_ge_cases (length b) 16) as [Hlt|Hge]; [|exact Hge].
      rewrite Nat.mod_small in Hm by exact Hlt. subst b; simpl in Hm; lia. }
    assert (Hd : (length (drop 16 b) mod 16 = 0)%nat).
    { rewrite length_drop.
      replace (length b) with (length b - 16 + 1 * 16)%nat in Hm by lia.
      rewrite Nat.Div0.mod_add in Hm. exact Hm. }
    destruct (IH (drop 16 b)) as [IH1 IH2]; [rewrite length_drop; lia | exact Hd |].
    rewrite chunks_S_nonnil by (subst b; discriminate). unfold BlockSize.
    split.
    + simpl. rewrite IH1. apply take_drop.
    + apply List.Forall_cons; [apply length_take_le; exact H16 | exact IH2].
Qed.

(** Chunking the concatenation of 16-byte blocks gives the blocks back. *)
Lemma chunks_concat (bs : list bytes) (fuel : nat) :
  Forall (fun x => length x = BlockSize) bs ->
  (length (concat bs) <= fuel)%nat ->
  chunks fuel (concat bs) = bs.
Proof.
  intros Hbs; revert fuel; induction Hbs as [|b bs Hb Hbs IH]; intros fuel Hl.
  - destruct fuel; reflexivity.
  - simpl in Hl. rewrite length_app, Hb in Hl. unfold BlockSize in *.
    destruct fuel as [|f]; [lia|].
    destruct b as [|x b'] eqn:Eb; [simpl in Hb; discriminate|].
    rewrite <- Eb in *.
    simpl concat. rewrite chunks_S_nonnil by (subst b; discriminate).
    unfold BlockSize. rewrite take_app_length', drop_app_length' by lia.
    rewrite IH by lia. reflexivity.
Qed.

Section AesRoundtrip.

(** AES-128 as a block permutation: decryption inverts encryption on
    16-byte blocks and encryption keeps the block size. *)
Variables aes_encrypt_block aes_decrypt_block : bytes -> bytes -> bytes.
Hypothesis decrypt_encrypt_block : forall k b,
  length k = 16%nat -> length b = 16%nat ->
  aes_decrypt_block k (aes_encrypt_block k b) = b.
Hypothesis length_encrypt_block : forall k b,
  length k = 16%nat -> length b = 16%nat ->
  length (aes_encrypt_block k b) = 16%nat.

Lemma cbc_roundtrip (k iv : bytes) (bs : list bytes) :
  length k = 16%nat -> length iv = 16%nat ->
  Forall (fun b => length b = BlockSize) bs ->
  cbc_decrypt aes_decrypt_block k iv (cbc_encrypt aes_encrypt_block k iv bs) = bs /\
  Forall (fun b => length b = BlockSize) (cbc_encrypt aes_encrypt_block k iv bs).
Proof.
  intros Hk; revert iv; induction bs as [|b bs IH]; intros iv Hiv Hbs; simpl.
  { split; [reflexivity | constructor]. }
  inversion Hbs as [|? ? Hb Hbs']; subst; unfold BlockSize in *.
  assert (Hx : length (xor_block b iv) = 16%nat) by (rewrite length_xor_block; lia).
  pose proof (length_encrypt_block k _ Hk Hx) as Hc.
  destruct (IH _ Hc Hbs') as [IH1 IH2].
  split.
  - rewrite decrypt_encrypt_block by assumption.
    rewrite xor_block_involutive by lia. rewrite IH1. reflexivity.
  - apply List.Forall_cons; assumption.
Qed.

(** Claim C6: with a 16-byte key, [aesEncrypt] succeeds and [aesDecrypt]
    of its output succeeds and returns the plaintext (for every
    plaintext length, in particular every length up to 65519). *)
Theorem aes_roundtrip (key m : bytes) :
  length key = 16%nat ->
  match aesEncrypt aes_encrypt_block key m with
  | Ok c => aesDecrypt aes_decrypt_block key c = Ok m
  | _ => False
  end.
Proof.
  intros Hk.
  assert (HN : NewCipher key = Some key) by (unfold NewCipher; rewrite Hk; reflexivity).
  unfold aesEncrypt, aesDecrypt. rewrite HN. cbv zeta.
  set (p := (BlockSize - length m mod BlockSize)%nat).
  assert (Hp : (1 <= p <= 16)%nat).
  { subst p; unfold BlockSize.
    pose proof (Nat.mod_upper_bound (length m) 16 ltac:(lia)). lia. }
  set (padtext := m ++ repeat (byte_of_Z (Z.of_nat p)) p).
  assert (Hlen : length padtext = (length m + p)%nat)
    by (subst padtext; rewrite length_app, repeat_length; reflexivity).
  assert (Hmod : (length padtext mod BlockSize = 0)%nat).
  { rewrite Hlen. subst p. unfold BlockSize.
    pose proof (Nat.div_mod_eq (length m) 16) as Hdm.
    pose proof (Nat.mod_upper_bound (length m) 16 ltac:(lia)) as Hub.
    replace (length m + (16 - length m mod 16))%nat
      with ((length m / 16 + 1) * 16)%nat by lia.
    apply Nat.Div0.mod_mul. }
  destruct (chunks_split (length padtext) padtext (le_n _) Hmod) as [Hcat Hbs].
  fold (to_blocks padtext) in Hcat, Hbs.
  assert (Hiv : length zero_iv = 16%nat) by reflexivity.
  destruct (cbc_roundtrip key zero_iv (to_blocks padtext) Hk Hiv Hbs) as [Hrt Hcs].
  set (cs := cbc_encrypt aes_encrypt_block key zero_iv (to_blocks padtext)) in *.
  rewrite length_concat_blocks by exact Hcs.
  unfold BlockSize at 1. rewrite Nat.mul_comm, Nat.Div0.mod_mul. simpl negb. cbv iota.
  assert (Htb : to_blocks (concat cs) = cs)
    by (apply chunks_concat; [exact Hcs | lia]).
  rewrite Htb.
  rewrite Hrt, Hcat.
  assert (Hlast : (Z.of_nat (length padtext) - 1 <? 0)%Z = false) by (apply Z.ltb_ge; lia).
  rewrite Hlast.
  replace (Z.to_nat (Z.of_nat (length padtext) - 1)) with (length m + (p - 1))%nat by lia.
  assert (Hnth : nth (length m + (p - 1)) padtext Byte.x00 = byte_of_Z (Z.of_nat p)).
  { subst padtext. rewrite app_nth2 by lia.
    replace (length m + (p - 1) - length m)%nat with (p - 1)%nat by lia.
    apply nth_repeat_lt; lia. }
  rewrite Hnth, Z_of_byte_of_Z, land_255_small by lia.
  assert (Hc1 : (Z.of_nat BlockSize <? Z.of_nat p)%Z = false)
    by (apply Z.ltb_ge; unfold BlockSize; lia).
  assert (Hc2 : (Z.of_nat p =? 0)%Z = false) by (apply Z.eqb_neq; lia).
  rewrite Hc1, Hc2. simpl orb. cbv iota.
  f_equal. rewrite Nat2Z.id, Hlen. subst padtext.
  apply take_app_length'. lia.
Qed.

End AesRoundtrip.

Lemma aes_roundtrip_witness :
  match aesEncrypt (fun k b => xor_block b k) (repeat Byte.x07 16) [Byte.x01; Byte.x02] with
  | Ok c => aesDecrypt (fun k b => xor_block b k) (repeat Byte.x07 16) c
            = Ok [Byte.x01; Byte.x02]
  | _ => False
  end.
Proof.
  apply (aes_roundtrip (fun k b => xor_block b k) (fun k b => xor_block b k)).
  - intros k b Hk Hb. apply xor_block_involutive. lia.
  - intros k b Hk Hb. rewrite length_xor_block. lia.
  - reflexivity.
Defined.

(** Claim C10 (code defect): the empty ciphertext passes the
    block-multiple check and [aesDecrypt] then evaluates
    [plaintext[len(plaintext)-1]] at index -1, a run-time panic. *)
Theorem aes_decrypt_empty_panics (aes_decrypt_block : bytes -> bytes -> bytes)
    (key : bytes) :
  length key = 16%nat ->
  aesDecrypt aes_decrypt_block key [] = Panic "index out of range [-1]".
Proof.
  intros Hk. unfold aesDecrypt, NewCipher. rewrite Hk. reflexivity.
Qed.

Lemma aes_decrypt_empty_panics_witness :
  aesDecrypt (fun k b => xor_block b k) (repeat Byte.x00 16) [] =
  Panic "index out of range [-1]".
Proof. apply aes_decrypt_empty_panics. reflexivity. Defined.

End PairFacts.

(* ===================================================================== *)
(** ** Launch parameters and the active-gamepads mask *)
(* ===================================================================== *)

Module LaunchFacts.

Import Launch.

(** [GetActiveGamepads] has bit [i] set exactly when slot [i+1] is
    occupied. *)
Lemma GetActiveGamepads_bit (s : Session.Session) (i : nat) :
  (i < 4)%nat ->
  Z.testbit (Session.GetActiveGamepads s) (Z.of_nat i) =
  match Session.slots s !! S i with Some (Some _) => true | _ => false end.
Proof.
  intros Hi. unfold Session.GetActiveGamepads, Session.Slot1.
  cbn [Session.gamepads_loop].
  destruct i as [|[|[|[|i]]]]; [| | | | lia];
  destruct (Session.slots s) as [|x0 [|x1 [|x2 [|x3 [|x4 sl]]]]];
  repeat match goal with
         | x : option string |- _ => destruct x as [?|]
         end; reflexivity.
Qed.

Lemma empty_session_gamepads : Session.GetActiveGamepads Session.empty_session = 0%Z.
Proof. reflexivity. Qed.

(** Claim C9: [Launch] and [Resume] send the same parameters, with
    [remoteControllersBitmap] and [gcmap] both the decimal form of the
    request's [Gamepads] field and [gcpersist] = 0, and
    [GetActiveGamepads] has bit i set iff slot i+1 is occupied; but the
    request the stream-start callback builds always carries 0xF (all four
    gamepads), and when the first client joins it is sent for the freshly
    created session, whose mask is 0. *)
Theorem launch_gamepad_params (c : Client) (req : LaunchRequest) :
  snd (Resume c req) = snd (Launch c req) /\
  snd (Launch c req) !! "remoteControllersBitmap" = Some (Itoa (Gamepads req)) /\
  snd (Launch c req) !! "gcmap" = Some (Itoa (Gamepads req)) /\
  snd (Launch c req) !! "gcpersist" = Some "0" /\
  (forall s i, (i < 4)%nat ->
     Z.testbit (Session.GetActiveGamepads s) (Z.of_nat i) =
     match Session.slots s !! S i with Some (Some _) => true | _ => false end) /\
  (forall apps defaultApp settings clientID,
     exists sess r s',
       handleClientJoin None apps defaultApp settings clientID = (Some (sess, r), s') /\
       Gamepads r = 15%Z /\ Session.GetActiveGamepads sess = 0%Z).
Proof.
  split; [reflexivity|].
  split; [vm_compute; reflexivity|].
  split; [vm_compute; reflexivity|].
  split; [vm_compute; reflexivity|].
  split; [exact GetActiveGamepads_bit|].
  intros apps defaultApp settings clientID.
  eexists _, _, _. split; [reflexivity|].
  split; [reflexivity | exact empty_session_gamepads].
Qed.

(** Claim C9 as stated fails: when the first client joins, the launch
    request carries [remoteControllersBitmap] = 15 although the session's
    active-gamepads mask at that moment is 0. *)
Lemma launch_mask_counterexample :
  ~ (forall c apps defaultApp settings clientID,
       match fst (handleClientJoin None apps defaultApp settings clientID) with
       | Some (sess, r) =>
           snd (Launch c r) !! "remoteControllersBitmap" =
           Some (Itoa (Session.GetActiveGamepads sess))
       | None => True
       end).
Proof.
  intros H.
  specialize (H {| uniqueID := "0123456789ABCDEF"; uuid := "u" |}
                [{| AppIDOf := 1; Title := "Desktop" |}] "Desktop"
                {| Bitrate := 20000; FPS := 60; Width := 1920; Height := 1080 |}
                "client-1").
  vm_compute in H. discriminate H.
Qed.

End LaunchFacts.

(* ===================================================================== *)
(** ** Session invariants *)
(* ===================================================================== *)

Module SessionInv.

Import Session.

Definition key_inv (s : Session) : Prop :=
  forall k p, participants s !! k = Some p -> ID p = k.

Definition host_inv (s : Session) : Prop :=
  (forall k p, participants s !! k = Some p -> IsHost p = true -> k = hostID s) /\
  (hostID s <> "" -> exists p, participants s !! hostID s = Some p /\ IsHost p = true).

Definition slot_inv (s : Session) : Prop :=
  length (slots s) = 5%nat /\
  (forall k id, slots s !! k = Some (Some id) ->
     exists p, participants s !! id = Some p /\ PRole p = RolePlayer /\ Slot p = k) /\
  (forall id p, participants s !! id = Some p -> PRole p = RolePlayer ->
     slots s !! Slot p = Some (Some id)) /\
  (forall id p, participants s !! id = Some p -> PRole p = RoleSpectator ->
     Slot p = SlotNone).

Definition inv (s : Session) : Prop :=
  SessionFacts.role_inv s /\ key_inv s /\ host_inv s /\ slot_inv s.

Lemma inv_empty : inv empty_session.
Proof.
  split; [exact SessionFacts.role_inv_empty|].
  split; [intros k p H; simpl in H; rewrite lookup_empty in H; discriminate|].
  split; [split; [intros k p H; simpl in H; rewrite lookup_empty in H; discriminate
                 | intros H; exfalso; apply H; reflexivity]|].
  split; [reflexivity|].
  split; [intros k id H; simpl in H;
          destruct k as [|[|[|[|[|k]]]]]; discriminate H|].
  split; intros id p H; simpl in H; rewrite lookup_empty in H; discriminate.
Qed.

Lemma role_cases (r : Role) : r = RolePlayer \/ r = RoleSpectator.
Proof. destruct r; auto. Qed.

Lemma map_nonempty_size (m : gmap string Participant) k p :
  m !! k = Some p -> Nat.eqb (size m) 0 = false.
Proof.
  intros H. apply Nat.eqb_neq. intros Hs. apply map_size_empty_inv in Hs.
  subst m. rewrite lookup_empty in H. discriminate.
Qed.

(** [Join] keeps the invariant. *)
Lemma inv_Join (s : Session) (id name : string) :
  inv s -> inv (fst (Join s id name)).
Proof.
  intros (Hr & Hk & [Hh1 Hh2] & Hl & Hs1 & Hs2 & Hs3).
  pose proof (SessionFacts.role_inv_step s (OpJoin id name) Hr) as Hr'.
  simpl in Hr'. unfold Join in *.
  destruct (participants s !! id) as [p0|] eqn:E; [split; [exact Hr'|]; repeat split; auto|].
  destruct (Nat.eqb (size (participants s)) 0) eqn:Esz; simpl in *;
    unfold inv, key_inv, host_inv, slot_inv; cbn [participants slots hostID].
  - (* empty map: the joiner becomes host in slot 1 *)
    apply Nat.eqb_eq, map_size_empty_inv in Esz.
    assert (Hfree : forall k id', slots s !! k <> Some (Some id')).
    { intros k id' Hsl. destruct (Hs1 _ _ Hsl) as (p & Hp & _).
      rewrite Esz, lookup_empty in Hp; discriminate. }
    split; [exact Hr'|].
    split; [intros k p Hp; apply lookup_insert_Some in Hp;
            destruct Hp as [[<- <-]|[_ Hp]]; [reflexivity|];
            rewrite Esz, lookup_empty in Hp; discriminate|].
    split; [split|].
    + intros k p Hp _. apply lookup_insert_Some in Hp.
      destruct Hp as [[<- _]|[_ Hp]]; [reflexivity|].
      rewrite Esz, lookup_empty in Hp; discriminate.
    + intros _. exists (mkParticipant id name RolePlayer Slot1 true true true).
      split; [apply lookup_insert_eq | reflexivity].
    + unfold set_slot. split; [rewrite length_insert; exact Hl|].
      split; [|split].
      * intros k id' Hsl. apply list_lookup_insert_Some in Hsl.
        destruct Hsl as [(<- & Heq & _)|(_ & Hsl)]; [|exfalso; exact (Hfree _ _ Hsl)].
        injection Heq as <-. eexists; split; [apply lookup_insert_eq|]. split; reflexivity.
      * intros id' p Hp Hpl. apply lookup_insert_Some in Hp.
        destruct Hp as [[<- <-]|[_ Hp]]; [|rewrite Esz, lookup_empty in Hp; discriminate].
        simpl. apply list_lookup_insert_eq. rewrite Hl. unfold Slot1; lia.
      * intros id' p Hp Hsp. apply lookup_insert_Some in Hp.
        destruct Hp as [[<- <-]|[_ Hp]]; [discriminate|].
        rewrite Esz, lookup_empty in Hp; discriminate.
  - (* otherwise a spectator without permissions *)
    split; [exact Hr'|].
    split; [intros k p Hp; apply lookup_insert_Some in Hp;
            destruct Hp as [[<- <-]|[_ Hp]]; [reflexivity | exact (Hk _ _ Hp)]|].
    split; [split|].
    + intros k p Hp Hhp. apply lookup_insert_Some in Hp.
      destruct Hp as [[<- <-]|[_ Hp]]; [discriminate | exact (Hh1 _ _ Hp Hhp)].
    + intros Hne. destruct (Hh2 Hne) as (p & Hp & Hhp). exists p; split; [|exact Hhp].
      rewrite lookup_insert_ne; [exact Hp | congruence].
    + split; [exact Hl|]. split; [|split].
      * intros k id' Hsl. destruct (Hs1 _ _ Hsl) as (p & Hp & Hp2).
        exists p; split; [|exact Hp2]. rewrite lookup_insert_ne; [exact Hp | congruence].
      * intros id' p Hp Hpl. apply lookup_insert_Some in Hp.
        destruct Hp as [[<- <-]|[_ Hp]]; [discriminate | exact (Hs2 _ _ Hp Hpl)].
      * intros id' p Hp Hsp. apply lookup_insert_Some in Hp.
        destruct Hp as [[<- <-]|[_ Hp]]; [reflexivity | exact (Hs3 _ _ Hp Hsp)].
Qed.

(** Slot-table bookkeeping shared by [Leave]: the new map keeps every
    other entry with its role, slot and id (possibly made host), and
    the leaver's slot is cleared. *)
Lemma slot_inv_leave (s : Session) (id : string) (p0 : Participant)
    (ps' : gmap string Participant) :
  SessionFacts.role_inv s -> slot_inv s -> participants s !! id = Some p0 ->
  (forall k p, ps' !! k = Some p -> k <> id /\ exists p1,
     participants s !! k = Some p1 /\ PRole p = PRole p1 /\ Slot p = Slot p1) ->
  (forall k p1, k <> id -> participants s !! k = Some p1 -> exists p, ps' !! k = Some p) ->
  forall h, slot_inv (mkSession ps'
    (if Nat.eqb (Slot p0) SlotNone then slots s else set_slot (slots s) (Slot p0) None) h).
Proof.
  intros Hr (Hl & Hs1 & Hs2 & Hs3) Hp0 Hnew Hold h.
  assert (Hsl : forall k id', (if Nat.eqb (Slot p0) SlotNone then slots s
                               else set_slot (slots s) (Slot p0) None) !! k = Some (Some id') ->
                id' <> id /\ slots s !! k = Some (Some id')).
  { intros k id' Hk. destruct (Nat.eqb (Slot p0) SlotNone) eqn:Ez.
    - split; [|exact Hk]. intros ->. destruct (Hs1 _ _ Hk) as (p & Hp & Hpl & _).
      rewrite Hp0 in Hp; injection Hp as <-.
      destruct (Hr _ _ Hp0) as [H1 _]. specialize (H1 Hpl).
      apply Nat.eqb_eq in Ez; unfold SlotNone in Ez; lia.
    - unfold set_slot in Hk. apply list_lookup_insert_Some in Hk.
      destruct Hk as [(_ & Hc & _)|(Hne & Hk)]; [discriminate|].
      split; [|exact Hk]. intros ->. destruct (Hs1 _ _ Hk) as (p & Hp & _ & Hsk).
      rewrite Hp0 in Hp; injection Hp as <-. congruence. }
  assert (Hother : forall k p1, k <> id -> participants s !! k = Some p1 ->
             PRole p1 = RolePlayer ->
             (if Nat.eqb (Slot p0) SlotNone then slots s
              else set_slot (slots s) (Slot p0) None) !! Slot p1 = Some (Some k)).
  { intros k p1 Hne Hk Hpl. pose proof (Hs2 _ _ Hk Hpl) as Hsk.
    destruct (Nat.eqb (Slot p0) SlotNone) eqn:Ez; [exact Hsk|].
    unfold set_slot. rewrite list_lookup_insert_ne; [exact Hsk|].
    intros Heq. destruct (role_cases (PRole p0)) as [Hp0r|Hp0r].
    - pose proof (Hs2 _ _ Hp0 Hp0r) as Hs0. rewrite Heq, Hsk in Hs0.
      injection Hs0 as Hs0. exact (Hne Hs0).
    - rewrite (Hs3 _ _ Hp0 Hp0r) in Ez. discriminate Ez. }
  unfold slot_inv; cbn [participants slots hostID].
  split; [destruct (Nat.eqb (Slot p0) SlotNone); [exact Hl|];
          unfold set_slot; rewrite length_insert; exact Hl|].
  split; [|split].
  - intros k id' Hk. destruct (Hsl _ _ Hk) as [Hne Hk'].
    destruct (Hs1 _ _ Hk') as (p1 & Hp1 & Hpl & Hsk).
    destruct (Hold _ _ Hne Hp1) as (p & Hp).
    destruct (Hnew _ _ Hp) as (_ & p2 & Hp2 & Hr2 & Hsl2).
    rewrite Hp1 in Hp2; injection Hp2 as <-.
    exists p; split; [exact Hp|]. split; congruence.
  - intros k p Hp Hpl. destruct (Hnew _ _ Hp) as (Hne & p1 & Hp1 & Hr1 & Hsl1).
    rewrite Hsl1. apply (Hother _ _ Hne Hp1). congruence.
  - intros k p Hp Hsp. destruct (Hnew _ _ Hp) as (Hne & p1 & Hp1 & Hr1 & Hsl1).
    rewrite Hsl1. apply (Hs3 _ _ Hp1). congruence.
Qed.

(** [Leave] keeps the invariant, for every map iteration order. *)
Lemma inv_Leave (s : Session) (id : string) (order : list string) :
  inv s -> inv (fst (fst (Leave s id order))).
Proof.
  intros (Hr & Hk & [Hh1 Hh2] & Hsi).
  pose proof (SessionFacts.role_inv_step s (OpLeave id order) Hr) as Hr'.
  simpl in Hr'. unfold Leave in *.
  destruct (participants s !! id) as [p0|] eqn:E;
    [|split; [exact Hr'|]; split; [exact Hk|]; split; [split; assumption | exact Hsi]].
  destruct (IsHost p0) eqn:Eh.
  - assert (Hid : id = hostID s) by exact (Hh1 _ _ E Eh).
    destruct (SessionFacts.promote_cases (delete id (participants s)) order) as [Hp|(k' & q' & Hq1 & Hq2 & _ & Hp)];
      rewrite Hp in *; simpl in *;
      unfold inv, key_inv, host_inv; cbn [participants slots hostID].
    + split; [exact Hr'|].
      split; [intros k p Hkp; apply lookup_delete_Some in Hkp; destruct Hkp as [_ Hkp];
              exact (Hk _ _ Hkp)|].
      split; [split|].
      * intros k p Hkp Hhp. apply lookup_delete_Some in Hkp. destruct Hkp as [Hne Hkp].
        exfalso; apply Hne. rewrite Hid. symmetry. exact (Hh1 _ _ Hkp Hhp).
      * intros Hc; exfalso; apply Hc; reflexivity.
      * apply (slot_inv_leave s id p0); auto.
        -- intros k p Hkp. apply lookup_delete_Some in Hkp. destruct Hkp as [Hne Hkp].
           split; [congruence|]. exists p; auto.
        -- intros k p1 Hne Hkp. exists p1. rewrite lookup_delete_ne; [exact Hkp | congruence].
    + apply lookup_delete_Some in Hq1. destruct Hq1 as [Hne' Hq1].
      assert (HIDq : ID q' = k') by exact (Hk _ _ Hq1).
      split; [exact Hr'|].
      split; [intros k p Hkp; apply lookup_insert_Some in Hkp;
              destruct Hkp as [[<- <-]|[_ Hkp]]; [exact HIDq|];
              apply lookup_delete_Some in Hkp; destruct Hkp as [_ Hkp]; exact (Hk _ _ Hkp)|].
      split; [split|].
      * intros k p Hkp Hhp. apply lookup_insert_Some in Hkp.
        destruct Hkp as [[<- <-]|[Hne Hkp]]; [symmetry; exact HIDq|].
        apply lookup_delete_Some in Hkp. destruct Hkp as [Hne2 Hkp].
        exfalso; apply Hne2. rewrite Hid. symmetry. exact (Hh1 _ _ Hkp Hhp).
      * intros _. exists (make_host q'). rewrite HIDq. split; [apply lookup_insert_eq | reflexivity].
      * apply (slot_inv_leave s id p0); auto.
        -- intros k p Hkp. apply lookup_insert_Some in Hkp.
           destruct Hkp as [[<- <-]|[Hne Hkp]].
           ++ split; [congruence|]. exists q'; auto.
           ++ apply lookup_delete_Some in Hkp. destruct Hkp as [Hne2 Hkp].
              split; [congruence|]. exists p; auto.
        -- intros k p1 Hne Hkp. destruct (decide (k = k')) as [->|Hne2].
           ++ eexists; apply lookup_insert_eq.
           ++ exists p1. rewrite lookup_insert_ne by congruence.
              rewrite lookup_delete_ne; [exact Hkp | congruence].
  - simpl in *. unfold inv, key_inv, host_inv; cbn [participants slots hostID].
    split; [exact Hr'|].
    split; [intros k p Hkp; apply lookup_delete_Some in Hkp; destruct Hkp as [_ Hkp];
            exact (Hk _ _ Hkp)|].
    split; [split|].
    + intros k p Hkp Hhp. apply lookup_delete_Some in Hkp. destruct Hkp as [_ Hkp].
      exact (Hh1 _ _ Hkp Hhp).
    + intros Hne. destruct (Hh2 Hne) as (p & Hp & Hhp). exists p; split; [|exact Hhp].
      rewrite lookup_delete_ne; [exact Hp|]. intros Heq. rewrite Heq, Hp in E.
      injection E as ->. congruence.
    + apply (slot_inv_leave s id p0); auto.
      * intros k p Hkp. apply lookup_delete_Some in Hkp. destruct Hkp as [Hne Hkp].
        split; [congruence|]. exists p; auto.
      * intros k p1 Hne Hkp. exists p1. rewrite lookup_delete_ne; [exact Hkp | congruence].
Qed.

(** [find_slot] returns a free index when it returns one. *)
Lemma first_free_free (sl : list (option string)) (i fuel : nat) :
  first_free sl i fuel <> SlotNone -> sl !! first_free sl i fuel = Some None.
Proof.
  revert i; induction fuel as [|f IH]; intros i H; [contradiction|].
  rewrite SessionFacts.first_free_S in *.
  destruct (sl !! i) as [[q|]|] eqn:E; auto.
Qed.

(** Replacing one entry by one with the same id and host flag keeps the
    key and host invariants, whatever happens to the slot table. *)
Lemma key_host_update (s : Session) (t : string) (p0 p' : Participant)
    (sl : list (option string)) :
  key_inv s -> host_inv s -> participants s !! t = Some p0 ->
  ID p' = ID p0 -> IsHost p' = IsHost p0 ->
  key_inv (mkSession (<[t := p']> (participants s)) sl (hostID s)) /\
  host_inv (mkSession (<[t := p']> (participants s)) sl (hostID s)).
Proof.
  intros Hk [Hh1 Hh2] Ht Hid Hhost. unfold key_inv, host_inv; cbn [participants hostID].
  split; [|split].
  - intros k p Hp. apply lookup_insert_Some in Hp.
    destruct Hp as [[<- <-]|[_ Hp]]; [rewrite Hid; exact (Hk _ _ Ht) | exact (Hk _ _ Hp)].
  - intros k p Hp Hhp. apply lookup_insert_Some in Hp.
    destruct Hp as [[<- <-]|[_ Hp]]; [rewrite Hhost in Hhp|]; eauto.
  - intros Hne. destruct (Hh2 Hne) as (p & Hp & Hhp).
    destruct (decide (t = hostID s)) as [Heq|Hne2].
    + rewrite <- Heq in *. exists p'. split; [apply lookup_insert_eq|]. rewrite Ht in Hp.
      injection Hp as <-. congruence.
    + exists p. rewrite lookup_insert_ne by exact Hne2. auto.
Qed.

(** Updates that keep role and slot keep the slot table invariant. *)
Lemma slot_inv_update (s : Session) (t : string) (p0 p' : Participant) :
  slot_inv s -> participants s !! t = Some p0 ->
  PRole p' = PRole p0 -> Slot p' = Slot p0 ->
  slot_inv (mkSession (<[t := p']> (participants s)) (slots s) (hostID s)).
Proof.
  intros (Hl & Hs1 & Hs2 & Hs3) Ht Hr Hsl. unfold slot_inv; cbn [participants slots].
  split; [exact Hl|]. split; [|split].
  - intros k id Hk. destruct (Hs1 _ _ Hk) as (p & Hp & Hpl & Hpk).
    destruct (decide (t = id)) as [<-|Hne].
    + exists p'. rewrite Ht in Hp; injection Hp as <-.
      split; [apply lookup_insert_eq | split; congruence].
    + exists p. rewrite lookup_insert_ne by exact Hne. auto.
  - intros id p Hp Hpl. apply lookup_insert_Some in Hp.
    destruct Hp as [[<- <-]|[_ Hp]]; [rewrite Hsl; apply Hs2; congruence | eauto].
  - intros id p Hp Hsp. apply lookup_insert_Some in Hp.
    destruct Hp as [[<- <-]|[_ Hp]]; [rewrite Hsl; apply (Hs3 t); congruence | eauto].
Qed.

Lemma inv_JoinAsPlayer (s : Session) (id : string) :
  inv s -> inv (fst (JoinAsPlayer s id)).
Proof.
  intros (Hr & Hk & Hh & Hsi).
  pose proof (SessionFacts.role_inv_step s (OpJoinAsPlayer id) Hr) as Hr'.
  simpl in Hr'. unfold JoinAsPlayer in *.
  destruct (participants s !! id) as [p0|] eqn:E; [|split; auto].
  destruct (decide (PRole p0 = RolePlayer)) as [Hpl|Hpl]; [split; auto|].
  destruct (Nat.eqb (find_slot (slots s)) SlotNone) eqn:Es; [split; auto|].
  simpl in *. apply Nat.eqb_neq in Es.
  pose proof (first_free_free (slots s) Slot1 4 Es) as Hfree.
  fold (find_slot (slots s)) in Hfree.
  destruct (SessionFacts.find_slot_range (slots s)) as [Hz|Hrange]; [contradiction|].
  set (k := find_slot (slots s)) in *.
  destruct (key_host_update s id p0 (set_role_slot p0 RolePlayer k)
              (set_slot (slots s) k (Some id)) Hk Hh E eq_refl eq_refl) as [Hk' Hh'].
  destruct Hsi as (Hl & Hs1 & Hs2 & Hs3).
  assert (Hsp : PRole p0 = RoleSpectator) by (destruct (PRole p0); congruence).
  split; [exact Hr'|]. split; [exact Hk'|]. split; [exact Hh'|].
  unfold slot_inv, set_slot; cbn [participants slots hostID].
  split; [rewrite length_insert; exact Hl|]. split; [|split].
  - intros j id' Hj. apply list_lookup_insert_Some in Hj.
    destruct Hj as [(<- & Heq & _)|(Hne & Hj)].
    + injection Heq as <-. eexists; split; [apply lookup_insert_eq | split; reflexivity].
    + destruct (Hs1 _ _ Hj) as (p & Hp & Hpp & Hpj).
      assert (Hne2 : id <> id') by (intros <-; rewrite E in Hp; injection Hp as <-; congruence).
      exists p. rewrite lookup_insert_ne by exact Hne2. auto.
  - intros id' p Hp Hpp. apply lookup_insert_Some in Hp.
    destruct Hp as [[<- <-]|[Hne Hp]].
    + simpl. apply list_lookup_insert_eq. rewrite Hl. lia.
    + pose proof (Hs2 _ _ Hp Hpp) as Hsk.
      rewrite list_lookup_insert_ne; [exact Hsk|]. intros Heq. rewrite Heq in Hfree.
      rewrite Hfree in Hsk. discriminate Hsk.
  - intros id' p Hp Hsp'. apply lookup_insert_Some in Hp.
    destruct Hp as [[<- <-]|[_ Hp]]; [discriminate Hsp' | exact (Hs3 _ _ Hp Hsp')].
Qed.

Lemma inv_Spectate (s : Session) (id : string) :
  inv s -> inv (fst (Spectate s id)).
Proof.
  intros (Hr & Hk & Hh & Hsi).
  pose proof (SessionFacts.role_inv_step s (OpSpectate id) Hr) as Hr'.
  simpl in Hr'. unfold Spectate in *.
  destruct (participants s !! id) as [p0|] eqn:E; [|split; auto].
  destruct (negb (bool_decide (PRole p0 = RolePlayer))) eqn:Epl; [split; auto|].
  destruct (IsHost p0) eqn:Eh; [split; auto|].
  simpl in *. apply negb_false_iff, bool_decide_eq_true in Epl.
  destruct (Hr _ _ E) as [Hrange _]. specialize (Hrange Epl).
  assert (Hz : Nat.eqb (Slot p0) SlotNone = false)
    by (apply Nat.eqb_neq; unfold SlotNone; lia).
  rewrite Hz in *.
  set (p' := set_mouse (set_keyboard (set_role_slot p0 RoleSpectator SlotNone) false) false).
  destruct (key_host_update s id p0 p' (set_slot (slots s) (Slot p0) None)
              Hk Hh E eq_refl eq_refl) as [Hk' Hh'].
  destruct Hsi as (Hl & Hs1 & Hs2 & Hs3).
  pose proof (Hs2 _ _ E Epl) as Hs0.
  split; [exact Hr'|]. split; [exact Hk'|]. split; [exact Hh'|].
  unfold slot_inv, set_slot; cbn [participants slots hostID].
  split; [rewrite length_insert; exact Hl|]. split; [|split].
  - intros j id' Hj. apply list_lookup_insert_Some in Hj.
    destruct Hj as [(_ & Heq & _)|(Hne & Hj)]; [discriminate Heq|].
    destruct (Hs1 _ _ Hj) as (p & Hp & Hpp & Hpj).
    assert (Hne2 : id <> id') by (intros <-; rewrite E in Hp; injection Hp as <-; congruence).
    exists p. rewrite lookup_insert_ne by exact Hne2. auto.
  - intros id' p Hp Hpp. apply lookup_insert_Some in Hp.
    destruct Hp as [[<- <-]|[Hne Hp]]; [discriminate Hpp|].
    pose proof (Hs2 _ _ Hp Hpp) as Hsk.
    rewrite list_lookup_insert_ne; [exact Hsk|]. intros Heq. rewrite <- Heq, Hs0 in Hsk.
    injection Hsk as Hsk. exact (Hne Hsk).
  - intros id' p Hp Hsp'. apply lookup_insert_Some in Hp.
    destruct Hp as [[<- <-]|[_ Hp]]; [reflexivity | exact (Hs3 _ _ Hp Hsp')].
Qed.

Lemma inv_SetKeyboardPermission (s : Session) (h t : string) (b : bool) :
  inv s -> inv (fst (SetKeyboardPermission s h t b)).
Proof.
  intros (Hr & Hk & Hh & Hsi).
  pose proof (SessionFacts.role_inv_step s (OpSetKeyboard h t b) Hr) as Hr'.
  simpl in Hr'. unfold SetKeyboardPermission in *.
  destruct (negb (String.eqb (hostID s) h)); [split; auto|].
  destruct (participants s !! t) as [p0|] eqn:E; [|split; auto].
  simpl in *. destruct (key_host_update s t p0 (set_keyboard p0 b) (slots s)
                          Hk Hh E eq_refl eq_refl) as [Hk' Hh'].
  split; [exact Hr'|]. split; [exact Hk'|]. split; [exact Hh'|].
  exact (slot_inv_update s t p0 (set_keyboard p0 b) Hsi E eq_refl eq_refl).
Qed.

Lemma inv_SetMousePermission (s : Session) (h t : string) (b : bool) :
  inv s -> inv (fst (SetMousePermission s h t b)).
Proof.
  intros (Hr & Hk & Hh & Hsi).
  pose proof (SessionFacts.role_inv_step s (OpSetMouse h t b) Hr) as Hr'.
  simpl in Hr'. unfold SetMousePermission in *.
  destruct (negb (String.eqb (hostID s) h)); [split; auto|].
  destruct (participants s !! t) as [p0|] eqn:E; [|split; auto].
  simpl in *. destruct (key_host_update s t p0 (set_mouse p0 b) (slots s)
                          Hk Hh E eq_refl eq_refl) as [Hk' Hh'].
  split; [exact Hr'|]. split; [exact Hk'|]. split; [exact Hh'|].
  exact (slot_inv_update s t p0 (set_mouse p0 b) Hsi E eq_refl eq_refl).
Qed.

Lemma inv_step (s : Session) (o : op) : inv s -> inv (step s o).
Proof.
  destruct o; simpl.
  - apply inv_Join.
  - apply inv_Leave.
  - apply inv_JoinAsPlayer.
  - apply inv_Spectate.
  - apply inv_SetKeyboardPermission.
  - apply inv_SetMousePermission.
Qed.

Lemma reachable_inv (s : Session) : reachable s -> inv s.
Proof. induction 1; [exact inv_empty | apply inv_step; assumption]. Qed.

(** Extra X1: in every reachable state a participant with [IsHost] set is
    the one stored under [hostID], and its [ID] is that key; so there is
    at most one host. *)
Theorem host_unique (s : Session) (k : string) (p : Participant) :
  reachable s -> participants s !! k = Some p -> IsHost p = true ->
  k = hostID s /\ ID p = k.
Proof.
  intros Hreach Hp Hh. destruct (reachable_inv s Hreach) as (_ & Hk & [Hh1 _] & _).
  split; [exact (Hh1 _ _ Hp Hh) | exact (Hk _ _ Hp)].
Qed.

(** Extra X2: in every reachable state with a non-empty [hostID] the
    participant stored under [hostID] exists, has [IsHost] set and is a
    player. *)
Theorem host_present (s : Session) :
  reachable s -> hostID s <> "" ->
  exists p, participants s !! hostID s = Some p /\ IsHost p = true /\
            PRole p = RolePlayer.
Proof.
  intros Hreach Hne. destruct (reachable_inv s Hreach) as (Hr & _ & [_ Hh2] & _).
  destruct (Hh2 Hne) as (p & Hp & Hhp). exists p.
  split; [exact Hp|]. split; [exact Hhp | exact (proj2 (Hr _ _ Hp) Hhp)].
Qed.

(** Extra X3: in every reachable state no two participants that are
    players have the same [Slot]. *)
Theorem players_distinct_slots (s : Session) (a b : string) (p q : Participant) :
  reachable s -> participants s !! a = Some p -> participants s !! b = Some q ->
  PRole p = RolePlayer -> PRole q = RolePlayer -> Slot p = Slot q -> a = b.
Proof.
  intros Hreach Hp Hq Hpp Hqp Heq.
  destruct (reachable_inv s Hreach) as (_ & _ & _ & _ & _ & Hs2 & _).
  pose proof (Hs2 _ _ Hp Hpp) as Ha. pose proof (Hs2 _ _ Hq Hqp) as Hb.
  rewrite Heq, Hb in Ha. congruence.
Qed.

(** Extra X4: in every reachable state the slot array has five entries,
    entry 0 is nil, an entry [k] holds [id] exactly when [id] is a player
    with [Slot] [k], and every spectator has [Slot] [SlotNone]. *)
Theorem slot_table_consistent (s : Session) :
  reachable s ->
  length (slots s) = 5%nat /\ slots s !! 0%nat = Some None /\
  (forall k id, slots s !! k = Some (Some id) <->
     exists p, participants s !! id = Some p /\ PRole p = RolePlayer /\ Slot p = k) /\
  (forall id p, participants s !! id = Some p -> PRole p = RoleSpectator ->
     Slot p = SlotNone).
Proof.
  intros Hreach. destruct (reachable_inv s Hreach) as (Hr & _ & _ & Hl & Hs1 & Hs2 & Hs3).
  split; [exact Hl|]. split; [|split; [|exact Hs3]].
  - destruct (slots s !! 0%nat) as [[id|]|] eqn:E.
    + destruct (Hs1 _ _ E) as (p & Hp & Hpl & Hk).
      destruct (Hr _ _ Hp) as [Hrange _]. specialize (Hrange Hpl). lia.
    + reflexivity.
    + apply lookup_ge_None in E. lia.
  - intros k id. split; [exact (Hs1 k id)|].
    intros (p & Hp & Hpl & <-). exact (Hs2 _ _ Hp Hpl).
Qed.

(** Extra X5: in every reachable state bit [i] (0 <= i < 4) of
    [GetActiveGamepads] is set exactly when some participant is a player
    in slot [i + 1]. *)
Theorem active_gamepads_players (s : Session) (i : nat) :
  reachable s -> (i < 4)%nat ->
  (Z.testbit (GetActiveGamepads s) (Z.of_nat i) = true <->
   exists id p, participants s !! id = Some p /\ PRole p = RolePlayer /\ Slot p = S i).
Proof.
  intros Hreach Hi. rewrite (LaunchFacts.GetActiveGamepads_bit s i Hi).
  destruct (reachable_inv s Hreach) as (_ & _ & _ & _ & Hs1 & Hs2 & _).
  split.
  - destruct (slots s !! S i) as [[id|]|] eqn:E; intros H; try discriminate H.
    destruct (Hs1 _ _ E) as (p & Hp & Hpl & Hk). exists id, p. auto.
  - intros (id & p & Hp & Hpl & Hk). pose proof (Hs2 _ _ Hp Hpl) as Hx.
    rewrite Hk in Hx. unfold PlayerSlot in Hx. rewrite Hx. reflexivity.
Qed.

(** Extra X6: joining twice with the same id is the same as joining once:
    the second [Join] changes nothing and returns the participant the
    first one returned. *)
Theorem join_idempotent (s : Session) (id n1 n2 : string) :
  Join (fst (Join s id n1)) id n2 = Join s id n1.
Proof.
  unfold Join at 2 3. destruct (participants s !! id) as [p|] eqn:E; simpl.
  - unfold Join. rewrite E. reflexivity.
  - unfold Join; simpl. rewrite lookup_insert_eq. reflexivity.
Qed.

(** Extra X7: [JoinAsPlayer], [Spectate], [SetKeyboardPermission] and
    [SetMousePermission] leave the session unchanged whenever they return
    an error. *)
Theorem errors_leave_session_unchanged (s : Session) (id h t : string) (b : bool) (e : Error) :
  (snd (JoinAsPlayer s id) = Some e -> fst (JoinAsPlayer s id) = s) /\
  (snd (Spectate s id) = Some e -> fst (Spectate s id) = s) /\
  (snd (SetKeyboardPermission s h t b) = Some e -> fst (SetKeyboardPermission s h t b) = s) /\
  (snd (SetMousePermission s h t b) = Some e -> fst (SetMousePermission s h t b) = s).
Proof.
  unfold JoinAsPlayer, Spectate, SetKeyboardPermission, SetMousePermission.
  repeat split;
    repeat match goal with
    | |- context [match ?x with _ => _ end] => destruct x
    | |- context [if ?x then _ else _] => destruct x
    end; simpl; intros H; try reflexivity; discriminate H.
Qed.

End SessionInv.

Module SessionReadFacts.

Import Session SessionRead SessionInv.


Lemma players_loop_elem (sl : list (option string)) (i fuel : nat) (id : string) :
  id ∈ players_loop sl i fuel <->
  exists k, (i <= k < i + fuel)%nat /\ sl !! k = Some (Some id).
Proof.
  revert i; induction fuel as [|f IH]; intros i; cbn [players_loop].
  - split; [intros H; apply elem_of_nil in H; contradiction | intros (k & Hk & _); lia].
  - unfold PlayerSlot. destruct (sl !! i) as [[q|]|] eqn:E.
    + rewrite elem_of_cons, IH. split.
      * intros [->|(k & Hk & Hs)]; [exists i; split; [lia|exact E]|exists k; split; [lia|exact Hs]].
      * intros (k & Hk & Hs). destruct (decide (k = i)) as [->|Hne].
        -- left. rewrite E in Hs. congruence.
        -- right. exists k. split; [lia|exact Hs].
    + rewrite IH. split; intros (k & Hk & Hs); exists k; split; try exact Hs; try lia.
      destruct (decide (k = i)) as [->|Hne]; [congruence|lia].
    + rewrite IH. split; intros (k & Hk & Hs); exists k; split; try exact Hs; try lia.
      destruct (decide (k = i)) as [->|Hne]; [congruence|lia].
Qed.

Lemma players_loop_NoDup (sl : list (option string)) (i fuel : nat) :
  (forall k1 k2 id, sl !! k1 = Some (Some id) -> sl !! k2 = Some (Some id) -> k1 = k2) ->
  NoDup (players_loop sl i fuel).
Proof.
  intros Hinj. revert i; induction fuel as [|f IH]; intros i; cbn [players_loop]; [constructor|].
  unfold PlayerSlot. destruct (sl !! i) as [[q|]|] eqn:E; [|apply IH|apply IH].
  constructor; [|apply IH].
  rewrite players_loop_elem. intros (k & Hk & Hs).
  pose proof (Hinj _ _ _ E Hs). lia.
Qed.

Lemma slots_injective (s : Session) :
  inv s -> forall k1 k2 id, slots s !! k1 = Some (Some id) ->
  slots s !! k2 = Some (Some id) -> k1 = k2.
Proof.
  intros (_ & _ & _ & _ & Hs1 & _) k1 k2 id H1 H2.
  destruct (Hs1 _ _ H1) as (p1 & Hp1 & _ & <-).
  destruct (Hs1 _ _ H2) as (p2 & Hp2 & _ & <-).
  congruence.
Qed.

Lemma count_loop (l : list (string * Participant)) (c : nat) :
  fold_left (fun count (kp : string * Participant) =>
               if decide (PRole kp.2 = RoleSpectator) then S count else count) l c =
  (c + length (filter (fun kp : string * Participant => PRole kp.2 = RoleSpectator) l))%nat.
Proof.
  revert c; induction l as [|[k p] l IH]; intros c; cbn [fold_left]; [simpl; lia|].
  rewrite filter_cons. simpl. repeat case_decide; simpl; rewrite IH; try lia; congruence.
Qed.

Lemma filter_roles (l : list (string * Participant)) :
  (length (filter (fun kp : string * Participant => PRole kp.2 = RoleSpectator) l) +
   length (filter (fun kp : string * Participant => PRole kp.2 = RolePlayer) l))%nat =
  length l.
Proof.
  induction l as [|[k p] l IH]; [reflexivity|].
  rewrite !filter_cons. repeat case_decide; simpl in *; try congruence; try lia.
  destruct (PRole p); contradiction.
Qed.

Lemma NoDup_fst_filter (P : string * Participant -> Prop) `{forall x, Decision (P x)}
    (l : list (string * Participant)) :
  NoDup (l.*1) -> NoDup ((filter P l).*1).
Proof.
  induction l as [|[k p] l IH]; simpl; intros Hn; [constructor|].
  apply NoDup_cons in Hn as [Hk Hn]. rewrite filter_cons.
  destruct (decide (P (k, p))); simpl; [|exact (IH Hn)].
  constructor; [|exact (IH Hn)].
  intros Hin; apply Hk. apply list_elem_of_fmap in Hin as ([k' p'] & Heq & Hin).
  apply list_elem_of_filter in Hin as [_ Hin]. simpl in Heq; subst k'.
  apply list_elem_of_fmap. exists (k, p'). auto.
Qed.

Lemma players_elem_inv (s : Session) (id : string) :
  inv s -> id ∈ GetPlayers s <->
  exists p, participants s !! id = Some p /\ PRole p = RolePlayer.
Proof.
  intros Hi. pose proof Hi as (Hr & _ & _ & _ & Hs1 & Hs2 & _).
  unfold GetPlayers. rewrite players_loop_elem. split.
  - intros (k & _ & Hk). destruct (Hs1 _ _ Hk) as (p & Hp & Hpl & _). eauto.
  - intros (p & Hp & Hpl). exists (Slot p).
    destruct (Hr _ _ Hp) as [Hrange _]. specialize (Hrange Hpl).
    split; [unfold Slot1; lia | exact (Hs2 _ _ Hp Hpl)].
Qed.

(** Extra X8: in every reachable state [GetPlayers] lists each participant
    whose role is [RolePlayer] exactly once, and nobody else. *)
Theorem GetPlayers_spec (s : Session) :
  reachable s ->
  NoDup (GetPlayers s) /\
  (forall id, id ∈ GetPlayers s <->
     exists p, participants s !! id = Some p /\ PRole p = RolePlayer).
Proof.
  intros Hreach. pose proof (reachable_inv s Hreach) as Hi. split.
  - apply players_loop_NoDup. exact (slots_injective s Hi).
  - intros id. exact (players_elem_inv s id Hi).
Qed.

(** Extra X9: in every reachable state the number of players returned by
    [GetPlayers] plus [GetSpectatorCount] is the number of participants. *)
Theorem players_plus_spectators (s : Session) :
  reachable s ->
  (length (GetPlayers s) + GetSpectatorCount s)%nat = size (participants s).
Proof.
  intros Hreach. pose proof (reachable_inv s Hreach) as Hi.
  set (L := map_to_list (participants s)).
  assert (Hperm : GetPlayers s ≡ₚ (filter (fun kp : string * Participant => PRole kp.2 = RolePlayer) L).*1).
  { apply NoDup_Permutation.
    - apply players_loop_NoDup. exact (slots_injective s Hi).
    - apply NoDup_fst_filter, NoDup_fst_map_to_list.
    - intros id. rewrite (players_elem_inv s id Hi), list_elem_of_fmap. split.
      + intros (p & Hp & Hpl). exists (id, p). split; [reflexivity|].
        apply list_elem_of_filter. split; [exact Hpl|]. apply elem_of_map_to_list. exact Hp.
      + intros ([k p] & -> & Hin). apply list_elem_of_filter in Hin as [Hpl Hin].
        apply elem_of_map_to_list in Hin. exists p. auto. }
  apply Permutation_length in Hperm. rewrite length_fmap in Hperm.
  unfold GetSpectatorCount. rewrite count_loop. fold L.
  rewrite <- length_map_to_list. fold L. rewrite <- (filter_roles L). lia.
Qed.

(** Extra X10: in every reachable state [GetHost] returns, when it returns a
    participant, the one stored under [hostID], which has [IsHost] set and
    is a player; when it returns nil, no participant other than one
    stored under the empty id has [IsHost] set. *)
Theorem GetHost_spec (s : Session) :
  reachable s ->
  (forall p, GetHost s = Some p ->
     participants s !! hostID s = Some p /\ IsHost p = true /\
     PRole p = RolePlayer /\ ID p = hostID s) /\
  (GetHost s = None ->
     forall k q, participants s !! k = Some q -> IsHost q = true -> k = "").
Proof.
  intros Hreach. pose proof (reachable_inv s Hreach) as (Hr & Hk & [Hh1 Hh2] & _).
  unfold GetHost. split.
  - intros p. destruct (String.eqb_spec (hostID s) "") as [He|Hne]; [discriminate|].
    intros Hp. destruct (Hh2 Hne) as (q & Hq & Hhq). rewrite Hq in Hp. injection Hp as <-.
    split; [exact Hq|]. split; [exact Hhq|].
    split; [exact (proj2 (Hr _ _ Hq) Hhq) | exact (Hk _ _ Hq)].
  - destruct (String.eqb_spec (hostID s) "") as [He|Hne].
    + intros _ k q Hq Hhq. rewrite <- He. exact (Hh1 _ _ Hq Hhq).
    + intros Hn. destruct (Hh2 Hne) as (q & Hq & _). congruence.
Qed.

End SessionReadFacts.

Module ServerFacts.

Import Session SessionRead Input Server SessionInv.

(** Which peer a handled message came from and what allowed it. *)
Lemma data_message_called (m : option Session) (peer ch : string) (data : bytes)
    (c : HandlerCall) :
  handleDataMessage m peer ch data = Called c ->
  exists s p, m = Some s /\ participants s !! peer = Some p /\
    match c with
    | HandleMouseMove _ _ | HandleMousePosition _ _ _ _
    | HandleMouseButton _ _ | HandleMouseScroll _ => CanMouse p = true
    | HandleKeyboard _ _ _ => CanKeyboard p = true
    | HandleController ev =>
        Slot p <> SlotNone /\ ControllerNumber ev = Z.land (Z.of_nat (Slot p) - 1) 255
    end.
Proof.
  destruct m as [s|]; [|discriminate].
  unfold handleDataMessage, CanUseMouse, CanUseKeyboard, GetSlotByID, dispatch.
  destruct (participants s !! peer) as [p|] eqn:E; intros H.
  - exists s, p. split; [reflexivity|]. split; [exact E|].
    repeat match type of H with
    | context [if ?b then _ else _] => let Hb := fresh "Hb" in destruct b eqn:Hb
    | context [match ?r with Parsed _ => _ | OutOfRange => _ end] =>
        destruct r as [[?|]|]
    end; try discriminate H; injection H as <-; simpl;
    try match goal with Hb : negb ?x = false |- ?x = true => apply negb_false_iff, Hb end.
    match goal with Hb : Nat.eqb (Slot p) SlotNone = false |- _ =>
      apply Nat.eqb_neq in Hb; split; [exact Hb | reflexivity] end.
  - exfalso. unfold SlotNone in H. simpl in H.
    repeat match type of H with
    | context [if ?b then _ else _] => destruct b
    end; discriminate H.
Qed.

(** A controller message is only forwarded for a player, with its slot
    number minus one. *)
Lemma controller_call_player (s : Session) (peer ch : string) (data : bytes)
    (ev : ControllerEvent) :
  inv s -> handleDataMessage (Some s) peer ch data = Called (HandleController ev) ->
  exists p, participants s !! peer = Some p /\ PRole p = RolePlayer /\
    Z.of_nat (Slot p) = (ControllerNumber ev + 1)%Z /\ (0 <= ControllerNumber ev <= 3)%Z.
Proof.
  intros (Hr & _ & _ & _ & _ & _ & Hs3) H.
  destruct (data_message_called _ _ _ _ _ H) as (s' & p & Hs & Hp & Hne & Hn).
  injection Hs as <-. exists p. split; [exact Hp|].
  assert (Hpl : PRole p = RolePlayer).
  { destruct (PRole p) eqn:Er; [|reflexivity]. exfalso. exact (Hne (Hs3 _ _ Hp Er)). }
  destruct (Hr _ _ Hp) as [Hrange _]. specialize (Hrange Hpl).
  rewrite PairFacts.land_255_small in Hn by lia.
  split; [exact Hpl|]. lia.
Qed.

(** The manager's session, when there is one, is reachable and has a
    non-empty host id. *)
Lemma server_inv (m : option Session) :
  server_reachable m ->
  match m with Some s => reachable s /\ hostID s <> "" | None => True end.
Proof.
  induction 1 as [|m e Hm IH He]; [exact I|].
  destruct e as [c ok|c order|c|c|c t kb ms]; simpl in *.
  - unfold handleClientJoin. destruct m as [s|].
    + destruct IH as [Hreach Hh]. split.
      * exact (reach_step s (OpJoin c "Player") Hreach).
      * unfold Join. destruct (participants s !! c) eqn:E; [exact Hh|]. simpl.
        destruct (reachable_inv s Hreach) as (_ & _ & [_ Hh2] & _).
        destruct (Hh2 Hh) as (p & Hp & _).
        assert (Hsz : size (participants s) <> 0%nat).
        { intros Hz. apply map_size_empty_inv in Hz. rewrite Hz, lookup_empty in Hp. discriminate. }
        apply Nat.eqb_neq in Hsz. rewrite Hsz. exact Hh.
    + destruct ok; [|exact I]. split.
      * exact (reach_step empty_session (OpJoin c "Player") reach_init).
      * exact He.
  - unfold handleClientLeave. destruct m as [s|]; [|exact I].
    destruct IH as [Hreach Hh].
    pose proof (reach_step s (OpLeave c order) Hreach) as Hr'. simpl in Hr'.
    unfold Leave in *. destruct (participants s !! c) as [p|] eqn:E; [|split; assumption].
    destruct (IsHost p).
    + destruct (promote (delete c (participants s)) order) as [ps' h] eqn:Ep.
      destruct (String.eqb_spec h "") as [->|Hne]; [exact I|]. split; assumption.
    + split; assumption.
  - unfold handleJoinAsPlayer. destruct m as [s|]; [|exact I].
    destruct IH as [Hreach Hh]. split; [exact (reach_step s (OpJoinAsPlayer c) Hreach)|].
    unfold JoinAsPlayer. destruct (participants s !! c); [|exact Hh].
    destruct (decide _); [exact Hh|]. destruct (Nat.eqb _ _); exact Hh.
  - unfold handleSpectate. destruct m as [s|]; [|exact I].
    destruct IH as [Hreach Hh]. split; [exact (reach_step s (OpSpectate c) Hreach)|].
    unfold Spectate. destruct (participants s !! c); [|exact Hh].
    destruct (negb _); [exact Hh|]. destruct (IsHost _); exact Hh.
  - unfold handleSetPermission. destruct m as [s|]; [|exact I].
    destruct IH as [Hreach Hh]. split.
    + exact (reach_step _ (OpSetMouse c t ms) (reach_step s (OpSetKeyboard c t kb) Hreach)).
    + unfold SetMousePermission, SetKeyboardPermission.
      destruct (negb (String.eqb (hostID s) c)); simpl;
        [|destruct (participants s !! t)]; simpl;
        (destruct (negb _); [exact Hh|]); simpl;
        (destruct (_ !! t); exact Hh).
Qed.

(** Extra X11: [handleDataMessage] calls an input handler only for a peer
    that is a participant of the current session: mouse handlers when it
    may use the mouse, the keyboard handler when it may use the keyboard,
    and the controller handler when its slot is not [SlotNone], with the
    controller number replaced by [uint8(slot - 1)]. *)
Theorem handled_input_permitted (m : option Session) (peer ch : string) (data : bytes)
    (c : HandlerCall) :
  handleDataMessage m peer ch data = Called c ->
  exists s p, m = Some s /\ participants s !! peer = Some p /\
    match c with
    | HandleMouseMove _ _ | HandleMousePosition _ _ _ _
    | HandleMouseButton _ _ | HandleMouseScroll _ => CanMouse p = true
    | HandleKeyboard _ _ _ => CanKeyboard p = true
    | HandleController ev =>
        Slot p <> SlotNone /\ ControllerNumber ev = Z.land (Z.of_nat (Slot p) - 1) 255
    end.
Proof. exact (data_message_called m peer ch data c). Qed.

(** Extra X12: in a reachable session a forwarded controller event comes from
    a player, and its controller number is that player's slot minus one,
    in 0..3; the number the browser sent is ignored. *)
Theorem controller_input_from_player (s : Session) (peer ch : string) (data : bytes)
    (ev : ControllerEvent) :
  reachable s ->
  handleDataMessage (Some s) peer ch data = Called (HandleController ev) ->
  exists p, participants s !! peer = Some p /\ PRole p = RolePlayer /\
    Z.of_nat (Slot p) = (ControllerNumber ev + 1)%Z /\ (0 <= ControllerNumber ev <= 3)%Z.
Proof.
  intros Hreach H. exact (controller_call_player s peer ch data ev (reachable_inv s Hreach) H).
Qed.

(** Extra X13: in a reachable session two different peers never drive the
    same controller number. *)
Theorem controller_numbers_distinct (s : Session) (a b cha chb : string)
    (da db : bytes) (ea eb : ControllerEvent) :
  reachable s ->
  handleDataMessage (Some s) a cha da = Called (HandleController ea) ->
  handleDataMessage (Some s) b chb db = Called (HandleController eb) ->
  ControllerNumber ea = ControllerNumber eb -> a = b.
Proof.
  intros Hreach Ha Hb Heq. pose proof (reachable_inv s Hreach) as Hi.
  destruct (controller_call_player s a cha da ea Hi Ha) as (p & Hp & Hpp & Hsp & _).
  destruct (controller_call_player s b chb db eb Hi Hb) as (q & Hq & Hqp & Hsq & _).
  destruct Hi as (_ & _ & _ & _ & _ & Hs2 & _).
  assert (Hslot : Slot p = Slot q) by lia.
  pose proof (Hs2 _ _ Hp Hpp) as H1. pose proof (Hs2 _ _ Hq Hqp) as H2.
  rewrite Hslot, H2 in H1. congruence.
Qed.

(** Extra X14: whenever the manager holds a session, that session is
    reachable by the session operations and has a host: [hostID] is not
    empty and names a participant with [IsHost] set that is a player. *)
Theorem active_session_has_host (s : Session) :
  server_reachable (Some s) ->
  reachable s /\ hostID s <> "" /\
  exists p, participants s !! hostID s = Some p /\ IsHost p = true /\
            PRole p = RolePlayer.
Proof.
  intros Hsr. destruct (server_inv _ Hsr) as [Hreach Hh].
  split; [exact Hreach|]. split; [exact Hh|].
  destruct (reachable_inv s Hreach) as (Hr & _ & [_ Hh2] & _).
  destruct (Hh2 Hh) as (p & Hp & Hhp). exists p.
  split; [exact Hp|]. split; [exact Hhp | exact (proj2 (Hr _ _ Hp) Hhp)].
Qed.

(** Extra X15: when the only participant of the session disconnects, the
    stream is stopped and the session is ended, whatever the map
    iteration order. *)
Theorem last_leave_stops_stream (s : Session) (cid : string) (p : Participant)
    (order : list string) :
  server_reachable (Some s) -> participants s !! cid = Some p ->
  size (participants s) = 1%nat ->
  handleClientLeave (Some s) cid order = (None, true).
Proof.
  intros Hsr Hp Hsz. destruct (server_inv _ Hsr) as [Hreach Hh].
  destruct (reachable_inv s Hreach) as (_ & _ & [_ Hh2] & _).
  destruct (Hh2 Hh) as (q & Hq & Hhq).
  assert (Hdel : delete cid (participants s) = ∅).
  { apply map_size_empty_inv. rewrite map_size_delete_Some by (exists p; exact Hp).
    rewrite Hsz. reflexivity. }
  assert (Hc : cid = hostID s).
  { destruct (decide (cid = hostID s)) as [He|Hne]; [exact He|].
    exfalso. assert (Hx : delete cid (participants s) !! hostID s = Some q)
      by (rewrite lookup_delete_ne by exact Hne; exact Hq).
    rewrite Hdel, lookup_empty in Hx. discriminate. }
  subst cid. rewrite Hp in Hq. injection Hq as <-.
  unfold handleClientLeave, Leave. rewrite Hp, Hhq, Hdel.
  rewrite (SessionFacts.promote_none ∅ order) by (intros k r _ Hr; rewrite lookup_empty in Hr; discriminate).
  reflexivity.
Qed.

(** Extra X16: a [set_permission] message from a client that is not the host
    changes nothing; from the host it sets the target's keyboard and
    mouse permissions to the two requested values and changes nothing
    else, and for an unknown target it changes nothing. *)
Theorem set_permission_effect (s : Session) (cid target : string) (kb ms : bool) :
  (cid <> hostID s -> handleSetPermission (Some s) cid target kb ms = Some s) /\
  (cid = hostID s -> participants s !! target = None ->
     handleSetPermission (Some s) cid target kb ms = Some s) /\
  (forall p, cid = hostID s -> participants s !! target = Some p ->
     handleSetPermission (Some s) cid target kb ms =
     Some (mkSession (<[target := set_mouse (set_keyboard p kb) ms]> (participants s))
                     (slots s) (hostID s))).
Proof.
  unfold handleSetPermission, SetKeyboardPermission, SetMousePermission.
  split; [|split].
  - intros Hne. destruct (String.eqb_spec (hostID s) cid) as [He|_]; [congruence|].
    simpl. destruct (String.eqb_spec (hostID s) cid) as [He|_]; [congruence|]. reflexivity.
  - intros -> Hn. rewrite String.eqb_refl, Hn. cbn [fst negb]. rewrite String.eqb_refl, Hn. reflexivity.
  - intros p -> Hp. rewrite String.eqb_refl, Hp. cbn [fst negb hostID participants slots].
    rewrite String.eqb_refl. cbn [negb].
    rewrite lookup_insert_eq. cbn [fst]. rewrite insert_insert_eq. reflexivity.
Qed.

End ServerFacts.

Module BrowserFacts.

Import Session SessionRead Input Server Browser.

Fixpoint le_val (bs : bytes) : Z :=
  match bs with
  | [] => 0
  | b :: bs' => (Sha256.Z_of_byte b + 256 * le_val bs')%Z
  end.

Lemma le_val_le_bytes (n : nat) (v : Z) :
  le_val (le_bytes n v) = (v mod 2 ^ (8 * Z.of_nat n))%Z.
Proof.
  revert v; induction n as [|n IH]; intros v; cbn [le_bytes le_val].
  - rewrite Z.mod_1_r. reflexivity.
  - rewrite IH, PairFacts.Z_of_byte_of_Z, PairFacts.land_255_mod.
    rewrite Z.shiftr_div_pow2 by lia.
    replace (2 ^ (8 * Z.of_nat (S n)))%Z with (2 ^ 8 * 2 ^ (8 * Z.of_nat n))%Z
      by (rewrite <- Z.pow_add_r by lia; f_equal; lia).
    rewrite Z.rem_mul_r by (try apply Z.pow_pos_nonneg; lia). reflexivity.
Qed.

Lemma le2 (v : Z) :
  (Sha256.Z_of_byte (Sha256.byte_of_Z v) +
   Sha256.Z_of_byte (Sha256.byte_of_Z (Z.shiftr v 8)) * 256)%Z = (v mod 65536)%Z.
Proof.
  pose proof (le_val_le_bytes 2 v) as H. cbn [le_bytes le_val] in H.
  change (2 ^ (8 * Z.of_nat 2))%Z with 65536%Z in H. lia.
Qed.

Lemma le4 (v : Z) :
  (Sha256.Z_of_byte (Sha256.byte_of_Z v) +
   Sha256.Z_of_byte (Sha256.byte_of_Z (Z.shiftr v 8)) * 256 +
   Sha256.Z_of_byte (Sha256.byte_of_Z (Z.shiftr (Z.shiftr v 8) 8)) * 65536 +
   Sha256.Z_of_byte (Sha256.byte_of_Z (Z.shiftr (Z.shiftr (Z.shiftr v 8) 8) 8)) * 16777216)%Z
  = (v mod 4294967296)%Z.
Proof.
  pose proof (le_val_le_bytes 4 v) as H. cbn [le_bytes le_val] in H.
  change (2 ^ (8 * Z.of_nat 4))%Z with 4294967296%Z in H. lia.
Qed.

Lemma byte_ToUint8 (v : Z) :
  Sha256.Z_of_byte (Sha256.byte_of_Z (ToUint8 v)) = ToUint8 v.
Proof.
  unfold ToUint8. rewrite PairFacts.Z_of_byte_of_Z, PairFacts.land_255_mod.
  apply Z.mod_mod. lia.
Qed.

Lemma u16_ToUint16 (v : Z) : (ToUint16 v mod 65536)%Z = ToUint16 v.
Proof. unfold ToUint16. apply Z.mod_mod. lia. Qed.

Lemma u32_ToUint32 (v : Z) : (ToUint32 v mod 4294967296)%Z = ToUint32 v.
Proof. unfold ToUint32. apply Z.mod_mod. lia. Qed.

Lemma int16_ToInt16 (v : Z) : int16 (ToInt16 v mod 65536)%Z = ToInt16 v.
Proof.
  unfold int16, ToInt16.
  pose proof (Z.mod_pos_bound v 65536 ltac:(lia)) as Hb.
  destruct (Z.geb_spec (v mod 65536) 32768) as [Hge|Hlt].
  - replace ((v mod 65536 - 65536) mod 65536)%Z with (v mod 65536)%Z.
    + destruct (Z.ltb_spec (v mod 65536) 32768); lia.
    + rewrite Zminus_mod, Z.mod_mod, Z_mod_same_full, Z.sub_0_r by lia.
      rewrite Z.mod_mod by lia. reflexivity.
  - rewrite Z.mod_mod by lia. destruct (Z.ltb_spec (v mod 65536) 32768); lia.
Qed.

Ltac name_bytes :=
  repeat match goal with
  | |- context [Sha256.byte_of_Z ?v] =>
      let b := fresh "b" in
      let Hb := fresh "Hb" in
      remember (Sha256.byte_of_Z v) as b eqn:Hb
  end.

Ltac decode_bytes :=
  subst; change byte_val with Sha256.Z_of_byte;
  rewrite ?le4, ?le2, ?byte_ToUint8, ?u16_ToUint16, ?u32_ToUint32, ?int16_ToInt16;
  reflexivity.

Lemma mouse_move_bytes (dx dy : Z) :
  ParseMouseMoveData (snd (sendMouseMove dx dy)) =
  Parsed (Some {| DeltaX := ToInt16 dx; DeltaY := ToInt16 dy |}).
Proof.
  unfold sendMouseMove, snd. cbn [le_bytes app]. name_bytes.
  unfold ParseMouseMoveData. simpl. decode_bytes.
Qed.

Lemma mouse_button_bytes (button action : Z) :
  ParseMouseButtonData (snd (sendMouseButton button action)) =
  Parsed (Some {| Button := ToUint8 button; BAction := ToUint8 action |}).
Proof.
  unfold sendMouseButton, snd. cbn [le_bytes app]. name_bytes.
  unfold ParseMouseButtonData. simpl. decode_bytes.
Qed.

Lemma mouse_scroll_bytes (amount : Z) :
  ParseMouseScrollData (snd (sendMouseScroll amount)) =
  Parsed (Some {| Amount := ToInt16 amount |}).
Proof.
  unfold sendMouseScroll, snd. cbn [le_bytes app]. name_bytes.
  unfold ParseMouseScrollData. simpl. decode_bytes.
Qed.

Lemma keyboard_bytes (keyCode action modifiers : Z) :
  ParseKeyboardData (snd (sendKeyboard keyCode action modifiers)) =
  Parsed (Some {| KeyCode := ToUint16 keyCode; KAction := ToUint8 action;
                  Modifiers := ToUint8 modifiers |}).
Proof.
  unfold sendKeyboard, snd, setUint16LE, setUint8, ArrayBuffer, dv_set.
  cbn [le_bytes]. name_bytes. simpl.
  unfold ParseKeyboardData. simpl. decode_bytes.
Qed.

Lemma controller_bytes (n buttons lt rt lsx lsy rsx rsy : Z) :
  ParseControllerData (snd (sendController n buttons lt rt lsx lsy rsx rsy)) =
  Parsed (Some {| ControllerNumber := ToUint8 n; Buttons := ToUint32 buttons;
                  LeftTrigger := ToUint8 lt; RightTrigger := ToUint8 rt;
                  LeftStickX := ToInt16 lsx; LeftStickY := ToInt16 lsy;
                  RightStickX := ToInt16 rsx; RightStickY := ToInt16 rsy |}).
Proof.
  unfold sendController, snd, setUint32LE, setInt16LE, setUint8, ArrayBuffer, dv_set.
  cbn [le_bytes]. name_bytes. simpl.
  unfold ParseControllerData. simpl. decode_bytes.
Qed.

(** Extra X17: each mouse message the browser sends ([sendMouseMove],
    [sendMouseButton], [sendMouseScroll]) reaches the server's mouse
    handler with the values the browser's typed array stored ([ToInt16]
    or [ToUint8] of the arguments) when the sender may use the mouse, and
    is dropped otherwise. *)
Theorem mouse_input_delivered (s : Session) (peer : string)
    (dx dy button action amount : Z) :
  handleDataMessage (Some s) peer (fst (sendMouseMove dx dy)) (snd (sendMouseMove dx dy)) =
    (if CanUseMouse s peer then Called (HandleMouseMove (ToInt16 dx) (ToInt16 dy))
     else Ignored) /\
  handleDataMessage (Some s) peer (fst (sendMouseButton button action))
    (snd (sendMouseButton button action)) =
    (if CanUseMouse s peer
     then Called (HandleMouseButton (ToUint8 button) (ToUint8 action)) else Ignored) /\
  handleDataMessage (Some s) peer (fst (sendMouseScroll amount)) (snd (sendMouseScroll amount)) =
    (if CanUseMouse s peer then Called (HandleMouseScroll (ToInt16 amount)) else Ignored).
Proof.
  unfold handleDataMessage.
  rewrite mouse_move_bytes, mouse_button_bytes, mouse_scroll_bytes.
  destruct (CanUseMouse s peer); repeat split; reflexivity.
Qed.

(** Extra X18: a key event the browser sends with [sendKeyboard] reaches the
    keyboard handler with [ToUint16] of the key code and [ToUint8] of the
    action and modifiers when the sender may use the keyboard, and is
    dropped otherwise. *)
Theorem keyboard_input_delivered (s : Session) (peer : string)
    (keyCode action modifiers : Z) :
  handleDataMessage (Some s) peer (fst (sendKeyboard keyCode action modifiers))
    (snd (sendKeyboard keyCode action modifiers)) =
  if CanUseKeyboard s peer
  then Called (HandleKeyboard (ToUint16 keyCode) (ToUint8 action) (ToUint8 modifiers))
  else Ignored.
Proof.
  unfold handleDataMessage. rewrite keyboard_bytes.
  destruct (CanUseKeyboard s peer); reflexivity.
Qed.

(** Extra X19: a gamepad state the browser sends with [sendController]
    reaches the controller handler with the stored button, trigger and
    stick values when the sender has a slot, the controller number being
    the sender's slot minus one whatever gamepad index the browser sent;
    a sender without a slot is dropped. *)
Theorem controller_input_delivered (s : Session) (peer : string)
    (index buttons lt rt lsx lsy rsx rsy : Z) :
  handleDataMessage (Some s) peer
    (fst (sendController index buttons lt rt lsx lsy rsx rsy))
    (snd (sendController index buttons lt rt lsx lsy rsx rsy)) =
  if Nat.eqb (GetSlotByID s peer) SlotNone then Ignored
  else Called (HandleController
         {| ControllerNumber := Z.land (Z.of_nat (GetSlotByID s peer) - 1) 255;
            Buttons := ToUint32 buttons;
            LeftTrigger := ToUint8 lt; RightTrigger := ToUint8 rt;
            LeftStickX := ToInt16 lsx; LeftStickY := ToInt16 lsy;
            RightStickX := ToInt16 rsx; RightStickY := ToInt16 rsy |}).
Proof.
  unfold handleDataMessage. rewrite controller_bytes. cbv zeta.
  destruct (Nat.eqb (GetSlotByID s peer) SlotNone); reflexivity.
Qed.

End BrowserFacts.

Module PairStepsFacts.

Import Sha256 Pair PairSteps PairFacts.
(** Extra X20: the client pairing secret [pairStep4] builds from a 256-byte
    certificate signature passes [verifyServerPairingSecret] with the same
    salt and a certificate holding an RSA key, whatever the RSA check
    says: the two functions agree on the secret's format. *)
Lemma clientPairingSecret_accepted
    (rsa_verify : PublicKey -> bytes -> bytes -> bool)
    (salt signature : bytes) (cert : Certificate) (n e : Z) :
  length signature = 256%nat ->
  CertPublicKey cert = RSAPublicKey n e ->
  verifyServerPairingSecret rsa_verify (clientPairingSecret salt signature) cert salt
  = Ok tt.
Proof.
  intros Hl Hk. unfold verifyServerPairingSecret, clientPairingSecret; cbv zeta.
  rewrite take_app_length', drop_app_length' by (symmetry; exact Hl).
  rewrite length_app, !length_sha256, Hl.
  change (Nat.ltb (256 + 32) 256) with false. change (Nat.ltb 32 32) with false.
  cbv iota.
  destruct (hash_loop_spec (sha256 (salt ++ signature)) (sha256 (salt ++ signature)))
    as (b & Hb & Hiff); [lia|].
  rewrite Hb. rewrite length_sha256, <- length_sha256 with (m := salt ++ signature),
    take_ge in Hiff by lia.
  destruct b; [|destruct Hiff as [_ H]; discriminate (H eq_refl)].
  rewrite Hk. destruct (rsa_verify _ _ _); reflexivity.
Qed.

Lemma clientPairingSecret_accepted_witness :
  verifyServerPairingSecret (fun _ _ _ => false)
    (clientPairingSecret (repeat Byte.x01 16) (repeat Byte.x02 256))
    {| CertPublicKey := RSAPublicKey 3 65537; RawTBSCertificate := [] |}
    (repeat Byte.x01 16) = Ok tt.
Proof. apply (clientPairingSecret_accepted _ _ _ _ 3 65537); reflexivity. Defined.

Lemma NewCipher_Some (key k : bytes) :
  NewCipher key = Some k -> k = key /\
  (length key = 16 \/ length key = 24 \/ length key = 32)%nat.
Proof.
  unfold NewCipher.
  destruct (Nat.eqb (length key) 16) eqn:E1; [apply Nat.eqb_eq in E1|];
  destruct (Nat.eqb (length key) 24) eqn:E2; try apply Nat.eqb_eq in E2;
  destruct (Nat.eqb (length key) 32) eqn:E3; try apply Nat.eqb_eq in E3;
  simpl; intros H; try discriminate; injection H; intros; subst; auto.
Qed.


Section BlockLength.

Variable aes_encrypt_block aes_decrypt_block : bytes -> bytes -> bytes.


Lemma cbc_decrypt_blocks (dec_len : forall k b, length b = 16%nat -> length (aes_decrypt_block k b) = 16%nat)
    (k iv : bytes) (bs : list bytes) :
  length iv = 16%nat ->
  Forall (fun b => length b = BlockSize) bs ->
  Forall (fun b => length b = BlockSize) (cbc_decrypt aes_decrypt_block k iv bs) /\
  length (cbc_decrypt aes_decrypt_block k iv bs) = length bs.
Proof.
  revert iv; induction bs as [|b bs IH]; intros iv Hiv Hbs; simpl.
  { split; [constructor | reflexivity]. }
  inversion Hbs as [|? ? Hb Hbs']; subst; unfold BlockSize in *.
  destruct (IH _ Hb Hbs') as [IH1 IH2].
  split; [|rewrite IH2; reflexivity].
  apply List.Forall_cons; [|exact IH1].
  rewrite length_xor_block, dec_len by exact Hb. lia.
Qed.

End BlockLength.


Section AesLengths.

Variables aes_encrypt_block aes_decrypt_block : bytes -> bytes -> bytes.
Hypothesis length_encrypt_block : forall k b,
  length b = 16%nat -> length (aes_encrypt_block k b) = 16%nat.
Hypothesis length_decrypt_block : forall k b,
  length b = 16%nat -> length (aes_decrypt_block k b) = 16%nat.
(** Extra X22: for a block function that keeps 16-byte blocks at 16 bytes,
    [aesDecrypt] panics only on the empty ciphertext under a valid key;
    when it succeeds the ciphertext is a non-empty multiple of 16 bytes
    and the result is 1 to 16 bytes shorter than it. *)
Lemma aesDecrypt_result (key ct : bytes) :
  match aesDecrypt aes_decrypt_block key ct with
  | Ok p => (length ct mod 16 = 0)%nat /\ (16 <= length ct)%nat /\
            (1 <= length ct - length p <= 16)%nat
  | Err _ => True
  | Panic msg => ct = [] /\ (length key = 16 \/ length key = 24 \/ length key = 32)%nat /\
                 msg = "index out of range [-1]"%string
  end.
Proof.
  unfold aesDecrypt. destruct (NewCipher key) as [k|] eqn:HN; [|exact I].
  destruct (NewCipher_Some key k HN) as [-> Hk].
  destruct (Nat.eqb (length ct mod BlockSize) 0) eqn:Em; [|exact I].
  apply Nat.eqb_eq in Em. simpl negb. cbv iota zeta.
  destruct (chunks_split (length ct) ct (le_n _) Em) as [Hcat Hbs].
  fold (to_blocks ct) in Hcat, Hbs.
  destruct (cbc_decrypt_blocks aes_decrypt_block length_decrypt_block key zero_iv
              (to_blocks ct) eq_refl Hbs) as [Hps Hn].
  set (pt := concat (cbc_decrypt aes_decrypt_block key zero_iv (to_blocks ct))).
  assert (Hpl : length pt = length ct).
  { subst pt. rewrite length_concat_blocks, Hn, <- length_concat_blocks, Hcat
      by assumption. reflexivity. }
  rewrite Hpl.
  destruct (Z.ltb (Z.of_nat (length ct) - 1) 0) eqn:El.
  { apply Z.ltb_lt in El. destruct ct; [|simpl in El; lia].
    split; [reflexivity | split; [exact Hk | reflexivity]]. }
  apply Z.ltb_ge in El.
  set (pad := Z_of_byte _).
  assert (Hr : (0 <= pad <= 255)%Z) by apply Z_of_byte_range.
  destruct (Z.ltb (Z.of_nat BlockSize) pad) eqn:E1; [exact I|].
  destruct (Z.eqb pad 0) eqn:E2; [exact I|]. simpl orb. cbv iota.
  apply Z.ltb_ge in E1. apply Z.eqb_neq in E2. unfold BlockSize in *.
  rewrite length_take, Hpl.
  assert (H16 : (16 <= length ct)%nat).
  { destruct (Nat.lt_ge_cases (length ct) 16) as [Hlt|]; [|assumption].
    rewrite Nat.mod_small in Em by exact Hlt. lia. }
  split; [exact Em | split; [exact H16 | lia]].
Qed.

End AesLengths.


Lemma aesDecrypt_result_witness :
  match aesDecrypt (fun _ b => b) (repeat Byte.x00 16) (repeat Byte.x01 16) with
  | Ok p => (length (repeat Byte.x01 16) mod 16 = 0)%nat /\
            (16 <= length (repeat Byte.x01 16))%nat /\
            (1 <= length (repeat Byte.x01 16) - length p <= 16)%nat
  | Err _ => True
  | Panic msg => repeat Byte.x01 16 = [] /\
                 (length (repeat Byte.x00 16) = 16 \/ length (repeat Byte.x00 16) = 24 \/
                  length (repeat Byte.x00 16) = 32)%nat /\
                 msg = "index out of range [-1]"%string
  end.
Proof. apply (aesDecrypt_result (fun _ b => b)). intros k b Hb; exact Hb. Defined.

End PairStepsFacts.

Module UuidFacts.

Import Sha256 Uuid PairFacts Stdlib.Strings.Ascii.

Lemma version_nibble (b : Byte.byte) :
  hex_char (Z.shiftr (Z_of_byte (byte_of_Z (Z.lor (Z.land (Z_of_byte b) 15) 64))) 4)
  = "4"%char.
Proof. destruct b; vm_compute; reflexivity. Qed.

Lemma variant_nibble (b : Byte.byte) :
  In (hex_char (Z.shiftr (Z_of_byte (byte_of_Z (Z.lor (Z.land (Z_of_byte b) 63) 128))) 4))
     ["8"; "9"; "a"; "b"]%char.
Proof. destruct b; vm_compute; auto 6. Qed.

Lemma hex_char_digit (d : Z) : In (hex_char d) (String.list_ascii_of_string "0123456789abcdef").
Proof.
  unfold hex_char.
  destruct (Z.to_nat d) as [|[|[|[|[|[|[|[|[|[|[|[|[|[|[|[|n]]]]]]]]]]]]]]]];
    simpl; auto 20.
Qed.
(** Extra X23: [generateUUID] always returns a 36-character string in the
    UUID layout: dashes at positions 8, 13, 18 and 23, the version digit
    4 at position 14, a variant digit 8, 9, a or b at position 19, and
    lowercase hexadecimal digits everywhere else. *)
Lemma generateUUID_format (now : nat -> Z) :
  let u := generateUUID now in
  String.length u = 36%nat /\
  String.get 8 u = Some "-"%char /\ String.get 13 u = Some "-"%char /\
  String.get 18 u = Some "-"%char /\ String.get 23 u = Some "-"%char /\
  String.get 14 u = Some "4"%char /\
  (exists c, String.get 19 u = Some c /\ In c ["8"; "9"; "a"; "b"]%char) /\
  (forall i, (i < 36)%nat -> i <> 8%nat -> i <> 13%nat -> i <> 18%nat -> i <> 23%nat ->
     exists c, String.get i u = Some c /\ In c (String.list_ascii_of_string "0123456789abcdef")).
Proof.
  unfold generateUUID; cbv zeta. simpl.
  rewrite version_nibble.
  split; [reflexivity|]. do 5 (split; [reflexivity|]).
  split; [eexists; split; [reflexivity | apply variant_nibble]|].
  intros i Hi H8 H13 H18 H23.
  do 36 (destruct i as [|i];
    [simpl; first [congruence | eexists; split;
     [reflexivity | first [apply hex_char_digit | simpl; tauto]]] | ]).
  lia.
Qed.

Lemma high_byte_zero (x : Z) (k : nat) :
  (0 <= x < 2 ^ 63)%Z -> (8 <= k)%nat ->
  byte_of_Z (Z.shiftr x (Z.of_nat (k * 8))) = Byte.x00.
Proof.
  intros Hx Hk. rewrite Z.shiftr_div_pow2 by lia.
  rewrite Z.div_small; [reflexivity|]. split; [lia|].
  apply Z.lt_le_trans with (2 ^ 63)%Z; [lia|]. apply Z.pow_le_mono_r; lia.
Qed.
(** Extra X24: when every clock reading is a non-negative int64 (a time after
    1970), bytes 8 to 15 are shifted by 64 bits or more and are zero, so
    the last 17 characters of every generated UUID are the constant
    [8000-000000000000]. *)
Lemma generateUUID_constant_tail (now : nat -> Z) :
  (forall i, (i < 16)%nat -> (0 <= now i < 2 ^ 63)%Z) ->
  String.substring 19 17 (generateUUID now) = "8000-000000000000"%string.
Proof.
  intros Hnow. unfold generateUUID; cbv zeta.
  cbn [seq map].
  rewrite !(high_byte_zero _ 8), !(high_byte_zero _ 9), !(high_byte_zero _ 10),
    !(high_byte_zero _ 11), !(high_byte_zero _ 12), !(high_byte_zero _ 13),
    !(high_byte_zero _ 14), !(high_byte_zero _ 15) by (lia || (apply Hnow; lia)).
  reflexivity.
Qed.

Lemma generateUUID_constant_tail_witness :
  String.substring 19 17 (generateUUID (fun i => 1760000000000000000 + Z.of_nat i)%Z)
  = "8000-000000000000"%string.
Proof. apply generateUUID_constant_tail. intros i Hi. lia. Defined.

End UuidFacts.

Module ExtraWitnesses.
Import Session Scenarios SessionRead Input Server SessionInv SessionReadFacts ServerFacts ExtraScenarios.

Lemma reachable_s_host : reachable s_host.
Proof. apply SessionFacts.reachable_run, reach_init. Qed.
Lemma reachable_s_full : reachable s_full.
Proof. apply SessionFacts.reachable_run, reach_init. Qed.
Lemma server_reachable_srv : server_reachable (Some srv_session).
Proof. exact (sr_step None (EvConnect "a" true) sr_init ltac:(discriminate)). Qed.

Lemma host_unique_witness :
  participants s_host !! "a" = Some p_a /\ IsHost p_a = true /\
  ("a" = hostID s_host /\ ID p_a = "a").
Proof.
  split; [reflexivity|]. split; [reflexivity|].
  apply (host_unique s_host "a" p_a); [exact reachable_s_host | reflexivity | reflexivity].
Defined.

Lemma host_present_witness :
  hostID s_host <> "" /\
  exists p, participants s_host !! hostID s_host = Some p /\ IsHost p = true /\
            PRole p = RolePlayer.
Proof.
  split; [vm_compute; discriminate|].
  apply host_present; [exact reachable_s_host | vm_compute; discriminate].
Defined.

Lemma players_distinct_slots_witness :
  participants s_full !! "a" = Some p_a /\ "a" = "a".
Proof.
  split; [reflexivity|].
  apply (players_distinct_slots s_full "a" "a" p_a p_a);
    [exact reachable_s_full | reflexivity | reflexivity | reflexivity | reflexivity | reflexivity].
Defined.

Lemma slot_table_consistent_witness :
  length (slots s_full) = 5%nat /\ slots s_full !! 0%nat = Some None /\
  (forall k id, slots s_full !! k = Some (Some id) <->
     exists p, participants s_full !! id = Some p /\ PRole p = RolePlayer /\ Slot p = k) /\
  (forall id p, participants s_full !! id = Some p -> PRole p = RoleSpectator ->
     Slot p = SlotNone).
Proof. apply slot_table_consistent. exact reachable_s_full. Defined.

Lemma active_gamepads_players_witness :
  (1 < 4)%nat /\
  (Z.testbit (GetActiveGamepads s_full) (Z.of_nat 1) = true <->
   exists id p, participants s_full !! id = Some p /\ PRole p = RolePlayer /\ Slot p = 2%nat).
Proof.
  split; [lia|]. apply active_gamepads_players; [exact reachable_s_full | lia].
Defined.

Lemma GetPlayers_spec_witness :
  NoDup (GetPlayers s_full) /\
  (forall id, id ∈ GetPlayers s_full <->
     exists p, participants s_full !! id = Some p /\ PRole p = RolePlayer).
Proof. apply GetPlayers_spec. exact reachable_s_full. Defined.

Lemma players_plus_spectators_witness :
  (length (GetPlayers s_full) + GetSpectatorCount s_full)%nat = size (participants s_full).
Proof. apply players_plus_spectators. exact reachable_s_full. Defined.

Lemma GetHost_spec_witness :
  (forall p, GetHost s_host = Some p ->
     participants s_host !! hostID s_host = Some p /\ IsHost p = true /\
     PRole p = RolePlayer /\ ID p = hostID s_host) /\
  (GetHost s_host = None ->
     forall k q, participants s_host !! k = Some q -> IsHost q = true -> k = "").
Proof. apply GetHost_spec. exact reachable_s_host. Defined.

Lemma handled_input_permitted_witness :
  handleDataMessage (Some s_host) "a" "keyboard" [Byte.x41; Byte.x00; Byte.x03; Byte.x00]
  = Called (HandleKeyboard 65 3 0) /\
  exists s p, Some s_host = Some s /\ participants s !! "a" = Some p /\ CanKeyboard p = true.
Proof.
  split; [reflexivity|].
  exact (handled_input_permitted (Some s_host) "a" "keyboard"
           [Byte.x41; Byte.x00; Byte.x03; Byte.x00] (HandleKeyboard 65 3 0) eq_refl).
Defined.

Lemma controller_input_from_player_witness :
  handleDataMessage (Some s_host) "a" "controllers" ctrl_frame
  = Called (HandleController ctrl_event) /\
  exists p, participants s_host !! "a" = Some p /\ PRole p = RolePlayer /\
    Z.of_nat (Slot p) = (ControllerNumber ctrl_event + 1)%Z /\
    (0 <= ControllerNumber ctrl_event <= 3)%Z.
Proof.
  split; [reflexivity|].
  apply (controller_input_from_player s_host "a" "controllers" ctrl_frame ctrl_event);
    [exact reachable_s_host | reflexivity].
Defined.

Lemma controller_numbers_distinct_witness :
  handleDataMessage (Some s_host) "a" "controller0" ctrl_frame
  = Called (HandleController ctrl_event) /\ "a" = "a".
Proof.
  split; [reflexivity|].
  apply (controller_numbers_distinct s_host "a" "a" "controller0" "controllers"
           ctrl_frame ctrl_frame ctrl_event ctrl_event);
    [exact reachable_s_host | reflexivity | reflexivity | reflexivity].
Defined.

Lemma active_session_has_host_witness :
  reachable srv_session /\ hostID srv_session <> "" /\
  exists p, participants srv_session !! hostID srv_session = Some p /\ IsHost p = true /\
            PRole p = RolePlayer.
Proof. apply active_session_has_host. exact server_reachable_srv. Defined.

Lemma last_leave_stops_stream_witness :
  size (participants srv_session) = 1%nat /\
  handleClientLeave (Some srv_session) "a" [] = (None, true).
Proof.
  split; [vm_compute; reflexivity|].
  apply (last_leave_stops_stream srv_session "a" p_srv []);
    [exact server_reachable_srv | reflexivity | vm_compute; reflexivity].
Defined.

Lemma set_permission_effect_witness :
  handleSetPermission (Some s_host) "a" "a" false true =
  Some (mkSession (<["a" := set_mouse (set_keyboard p_a false) true]> (participants s_host))
                  (slots s_host) (hostID s_host)).
Proof.
  apply (proj2 (proj2 (set_permission_effect s_host "a" "a" false true)) p_a);
    reflexivity.
Defined.

End ExtraWitnesses.
